(** * DBF to CSV conversion (src/utils/dbf.ts)

    A shallow embedding of [convertDbfToCsv] and of the JavaScript runtime
    pieces it relies on ([DataView], [Uint8Array], [TextDecoder],
    [String.prototype.trim] ...), followed by the properties of the
    converter.

    Conventions.  An [ArrayBuffer] is a [list byte].  A JavaScript string is
    the list of its UTF-16 code units, each an [N].  Every number the
    converter handles is a non-negative integer below 2^53, so JavaScript's
    double arithmetic is exact on them and is modelled by [N]. *)

From Stdlib Require Import NArith List Bool Lia String Ascii Arith.
From Stdlib Require Import Init.Byte Strings.Byte.
From Equations Require Import Equations.
From Equations.Prop Require Import Logic.
Import ListNotations.

Local Open Scope N_scope.
Local Open Scope list_scope.

(** ** Errors and the result monad *)

(** The six [throw new Error(...)] sites of the converter, and the
    [RangeError] that [DataView] and typed-array constructors raise on an
    out-of-bounds access. *)
Inductive DbfError : Type :=
| BufferTooSmall
| MalformedHeader
| HeaderLargerThanFile
| NoFieldsDefined
| PayloadTruncated
| RecordBeyondFile
| RangeError.

Definition message (e : DbfError) : string :=
  match e with
  | BufferTooSmall => "Buffer is too small to be a valid DBF file."
  | MalformedHeader => "Malformed DBF header."
  | HeaderLargerThanFile => "Header length is larger than the file itself."
  | NoFieldsDefined => "DBF file does not define any fields."
  | PayloadTruncated => "DBF payload is truncated."
  | RecordBeyondFile => "Encountered a record extending beyond the file size."
  | RangeError => "RangeError"
  end%string.

(** The errors written in the converter itself. *)
Definition documented (e : DbfError) : bool :=
  match e with
  | RangeError => false
  | _ => true
  end.

Inductive result (A : Type) : Type :=
| Ok (a : A)
| Throw (e : DbfError).
Arguments Ok {A} a.
Arguments Throw {A} e.

Definition bind {A B : Type} (c : result A) (k : A -> result B) : result B :=
  match c with
  | Ok a => k a
  | Throw e => Throw e
  end.

Notation "x <- c ;; k" := (bind c (fun x => k))
  (at level 61, c at next level, right associativity).
Notation "' p <- c ;; k" := (bind c (fun x => let 'p := x in k))
  (at level 61, p pattern, c at next level, right associativity).

(** ** The JavaScript runtime, as far as the converter uses it *)

Module JS.

(** A string is the sequence of its UTF-16 code units. *)
Definition jsstring : Type := list N.

(** A literal of the source, as code units. *)
Definition lit (s : string) : jsstring :=
  map N_of_ascii (list_ascii_of_string s).

Definition COMMA : N := 44.
Definition DQUOTE : N := 34.
Definition LF : N := 10.
Definition CR : N := 13.

(** [ArrayBuffer.prototype.byteLength] *)
Definition byteLength (buffer : list byte) : N :=
  N.of_nat (List.length buffer).

(** [DataView.prototype.getUint8]: a [RangeError] outside the buffer. *)
Definition getUint8 (buffer : list byte) (byteOffset : N) : result N :=
  match nth_error buffer (N.to_nat byteOffset) with
  | Some b => Ok (Byte.to_N b)
  | None => Throw RangeError
  end.

(** [DataView.prototype.getUint16(byteOffset, true)] (little endian). *)
Definition getUint16 (buffer : list byte) (byteOffset : N) : result N :=
  b0 <- getUint8 buffer byteOffset ;;
  b1 <- getUint8 buffer (byteOffset + 1) ;;
  Ok (b0 + 256 * b1).

(** [DataView.prototype.getUint32(byteOffset, true)] (little endian). *)
Definition getUint32 (buffer : list byte) (byteOffset : N) : result N :=
  b0 <- getUint8 buffer byteOffset ;;
  b1 <- getUint8 buffer (byteOffset + 1) ;;
  b2 <- getUint8 buffer (byteOffset + 2) ;;
  b3 <- getUint8 buffer (byteOffset + 3) ;;
  Ok (b0 + 256 * b1 + 65536 * b2 + 16777216 * b3).

(** [new Uint8Array(buffer, byteOffset, length)]: a window on the buffer,
    a [RangeError] when the window does not fit. *)
Definition Uint8Array (buffer : list byte) (byteOffset length : N)
  : result (list byte) :=
  if byteOffset + length <=? byteLength buffer
  then Ok (firstn (N.to_nat length) (skipn (N.to_nat byteOffset) buffer))
  else Throw RangeError.

(** The upper half of the windows-1252 index, bytes 0x80 to 0x9F: the
    encoding that the label "ascii" selects in [TextDecoder]. *)
Definition windows1252_high : list N :=
  [ 0x20AC; 0x0081; 0x201A; 0x0192; 0x201E; 0x2026; 0x2020; 0x2021;
    0x02C6; 0x2030; 0x0160; 0x2039; 0x0152; 0x008D; 0x017D; 0x008F;
    0x0090; 0x2018; 0x2019; 0x201C; 0x201D; 0x2022; 0x2013; 0x2014;
    0x02DC; 0x2122; 0x0161; 0x203A; 0x0153; 0x009D; 0x017E; 0x0178 ].

Definition decodeByte (b : byte) : N :=
  let n := Byte.to_N b in
  if (0x80 <=? n) && (n <=? 0x9F)
  then nth (N.to_nat (n - 0x80)) windows1252_high n
  else n.

(** [new TextDecoder("ascii").decode(bytes)]: one code unit per byte. *)
Definition decode (bytes : list byte) : jsstring := map decodeByte bytes.

(** [String.fromCharCode] of one code unit. *)
Definition fromCharCode (c : N) : jsstring := [c].

(** WhiteSpace and LineTerminator of ECMAScript, what [trim] removes. *)
Definition isWhiteSpace (c : N) : bool :=
  ((0x09 <=? c) && (c <=? 0x0D)) || (c =? 0x20) || (c =? 0xA0)
  || (c =? 0x1680) || ((0x2000 <=? c) && (c <=? 0x200A))
  || (c =? 0x2028) || (c =? 0x2029) || (c =? 0x202F) || (c =? 0x205F)
  || (c =? 0x3000) || (c =? 0xFEFF).

Fixpoint trimStart (s : jsstring) : jsstring :=
  match s with
  | c :: s' => if isWhiteSpace c then trimStart s' else s
  | [] => []
  end.

Definition trimEnd (s : jsstring) : jsstring := rev (trimStart (rev s)).

(** [String.prototype.trim] *)
Definition trim (s : jsstring) : jsstring := trimEnd (trimStart s).

(** [s.includes(c)] for a one-character search string. *)
Definition includes (s : jsstring) (c : N) : bool := existsb (N.eqb c) s.

(** [s.replace(/c/g, by)] for a one-character pattern. *)
Fixpoint replaceAll (s : jsstring) (c : N) (by_ : jsstring) : jsstring :=
  match s with
  | [] => []
  | d :: s' =>
      (if d =? c then by_ else [d]) ++ replaceAll s' c by_
  end.

(** [Array.prototype.join] on an array of strings. *)
Fixpoint join (sep : jsstring) (parts : list jsstring) : jsstring :=
  match parts with
  | [] => []
  | [p] => p
  | p :: rest => p ++ sep ++ join sep rest
  end.

Fixpoint digits (d : Decimal.uint) : jsstring :=
  match d with
  | Decimal.Nil => []
  | Decimal.D0 d => 48 :: digits d
  | Decimal.D1 d => 49 :: digits d
  | Decimal.D2 d => 50 :: digits d
  | Decimal.D3 d => 51 :: digits d
  | Decimal.D4 d => 52 :: digits d
  | Decimal.D5 d => 53 :: digits d
  | Decimal.D6 d => 54 :: digits d
  | Decimal.D7 d => 55 :: digits d
  | Decimal.D8 d => 56 :: digits d
  | Decimal.D9 d => 57 :: digits d
  end.

(** A non-negative integer in a template literal: its decimal digits. *)
Definition numberToString (n : N) : jsstring := digits (N.to_uint n).

End JS.

Import JS.

(** ** The converter *)

Record DbfFieldMeta : Type := {
  field_name : jsstring;
  field_type : jsstring;
  field_length : N;
  field_decimalCount : N
}.

Definition sanitizeText (bytes : list byte) : jsstring :=
  let decoded := decode bytes in
  trim (replaceAll decoded 0 []).

Definition escapeCsv (value : jsstring) : jsstring :=
  let needsWrapper :=
    includes value COMMA || includes value DQUOTE
    || includes value LF || includes value CR in
  let escaped := replaceAll value DQUOTE [DQUOTE; DQUOTE] in
  if needsWrapper then [DQUOTE] ++ escaped ++ [DQUOTE] else escaped.

(** The preamble: the size test, the three little-endian reads and the two
    header tests (lines 32-47).  Returns
    [(recordCount, headerLength, recordLength)]. *)
Definition readPreamble (buffer : list byte) : result (N * N * N) :=
  if byteLength buffer <? 32 then Throw BufferTooSmall else
  recordCount <- getUint32 buffer 4 ;;
  headerLength <- getUint16 buffer 8 ;;
  recordLength <- getUint16 buffer 10 ;;
  if (headerLength =? 0) || (recordLength =? 0) then Throw MalformedHeader else
  if byteLength buffer <? headerLength then Throw HeaderLargerThanFile else
  Ok (recordCount, headerLength, recordLength).

(** One descriptor entry (lines 59-65); [ordinal] is [fields.length + 1]. *)
Definition readDescriptor (buffer : list byte) (descriptorOffset ordinal : N)
  : result DbfFieldMeta :=
  nameBytes <- Uint8Array buffer descriptorOffset 11 ;;
  let sanitized := sanitizeText nameBytes in
  let name :=
    match sanitized with
    | [] => lit "FIELD_" ++ numberToString ordinal
    | _ => sanitized
    end in
  typeCode <- getUint8 buffer (descriptorOffset + 11) ;;
  length <- getUint8 buffer (descriptorOffset + 16) ;;
  decimalCount <- getUint8 buffer (descriptorOffset + 17) ;;
  Ok {| field_name := name;
        field_type := fromCharCode typeCode;
        field_length := length;
        field_decimalCount := decimalCount |}.

(** The [while (descriptorOffset < headerLength)] loop (lines 52-67).  It
    returns the fields and the final [descriptorOffset]. *)
Equations? descriptorLoop (buffer : list byte) (headerLength : N)
    (descriptorOffset : N) (fields : list DbfFieldMeta)
  : result (list DbfFieldMeta * N)
  by wf (N.to_nat (headerLength - descriptorOffset)) lt :=
  descriptorLoop buffer headerLength descriptorOffset fields
    with inspect (descriptorOffset <? headerLength) := {
    | exist _ false _ => Ok (fields, descriptorOffset)
    | exist _ true Hlt with getUint8 buffer descriptorOffset := {
      | Throw e => Throw e
      | Ok marker with marker =? 0x0d := {
        | true => Ok (fields, descriptorOffset + 1)
        | false
            with readDescriptor buffer descriptorOffset
                   (N.of_nat (List.length fields) + 1) := {
          | Throw e => Throw e
          | Ok field =>
              descriptorLoop buffer headerLength (descriptorOffset + 32)
                (fields ++ [field]) } } } }.
Proof.
  apply N.ltb_lt in Hlt. lia.
Qed.

(** The [for (const field of fields)] loop of one record (lines 97-105). *)
Fixpoint fieldLoop (buffer : list byte) (fields : list DbfFieldMeta)
    (fieldOffset : N) (csvCells : list jsstring) : result (list jsstring) :=
  match fields with
  | [] => Ok csvCells
  | field :: fields' =>
      if byteLength buffer <? fieldOffset + field_length field
      then Throw RecordBeyondFile
      else
        slice <- Uint8Array buffer fieldOffset (field_length field) ;;
        let value := sanitizeText slice in
        fieldLoop buffer fields' (fieldOffset + field_length field)
          (csvCells ++ [escapeCsv value])
  end.

(** The [for (let rowIndex = 0; rowIndex < recordCount; rowIndex += 1)] loop
    (lines 83-109); [remaining] is [recordCount - rowIndex], so the loop
    condition fails exactly when it is zero. *)
Fixpoint recordLoop (buffer : list byte) (fields : list DbfFieldMeta)
    (dataStart recordLength : N) (remaining : nat) (rowIndex : N)
    (rows : list jsstring) (parsedRecords : N)
  : result (list jsstring * N) :=
  match remaining with
  | O => Ok (rows, parsedRecords)
  | S remaining' =>
      let recordOffset := dataStart + rowIndex * recordLength in
      if byteLength buffer <? recordOffset + recordLength
      then Ok (rows, parsedRecords)
      else
        deletionFlag <- getUint8 buffer recordOffset ;;
        if deletionFlag =? 0x2a
        then recordLoop buffer fields dataStart recordLength remaining'
               (rowIndex + 1) rows parsedRecords
        else
          csvCells <- fieldLoop buffer fields (recordOffset + 1) [] ;;
          recordLoop buffer fields dataStart recordLength remaining'
            (rowIndex + 1) (rows ++ [join [COMMA] csvCells])
            (parsedRecords + 1)
  end.

Definition headerRow (fields : list DbfFieldMeta) : jsstring :=
  join [COMMA] (map (fun field => escapeCsv (field_name field)) fields).

Definition CRLF : jsstring := [CR; LF].

Record DbfCsvResult : Type := {
  csv : jsstring;
  recordCount : N;
  parsedRecords : N;
  headerLength : N;
  recordLength : N;
  fields : list DbfFieldMeta
}.

Definition convertDbfToCsv (buffer : list byte) : result DbfCsvResult :=
  '(recordCount, headerLength, recordLength) <- readPreamble buffer ;;
  '(fields, _) <- descriptorLoop buffer headerLength 32 [] ;;
  match fields with
  | [] => Throw NoFieldsDefined
  | _ :: _ =>
      let rows := [headerRow fields] in
      let dataStart := headerLength in
      if byteLength buffer <? dataStart + recordLength
      then Throw PayloadTruncated
      else
        '(rows, parsedRecords) <-
          recordLoop buffer fields dataStart recordLength
            (N.to_nat recordCount) 0 rows 0 ;;
        Ok {| csv := join CRLF rows;
              recordCount := recordCount;
              parsedRecords := parsedRecords;
              headerLength := headerLength;
              recordLength := recordLength;
              fields := fields |}
  end.

(** ** Sample files *)

Definition byteOf (n : N) : byte :=
  match Byte.of_N n with
  | Some b => b
  | None => x00
  end.

Definition zeros (n : nat) : list byte := repeat x00 n.

(** A 32-byte preamble with the three header numbers (each below 256). *)
Definition preamble (recordCount headerLength recordLength : N) : list byte :=
  zeros 4 ++ [byteOf recordCount; x00; x00; x00]
  ++ [byteOf headerLength; x00] ++ [byteOf recordLength; x00] ++ zeros 20.

(** A 32-byte descriptor entry. *)
Definition descriptor (name : string) (typeCode : string) (length : N)
  : list byte :=
  let nameBytes := list_byte_of_string name in
  nameBytes ++ zeros (11 - List.length nameBytes)
  ++ list_byte_of_string typeCode ++ zeros 4 ++ [byteOf length; x00]
  ++ zeros 14.

Definition minimal : list byte :=
  preamble 1 65 11 ++ descriptor "NAME" "C" 10 ++ [x0d]
  ++ [x20] ++ list_byte_of_string "HELLO     ".

(** The failing input of the descriptor table: 33 bytes, the header claims
    33 bytes, and byte 32 is not the terminator. *)
Definition shortDescriptor : list byte := preamble 0 33 1 ++ [x00].

(** [minimal] with a record length of 5: the single field (10 bytes) is wider
    than the record, and its bytes are still in the buffer. *)
Definition wideField : list byte :=
  preamble 1 65 5 ++ descriptor "NAME" "C" 10 ++ [x0d]
  ++ [x20] ++ list_byte_of_string "HELLO     ".

(** Three declared records of 5 bytes, a field of 10 bytes, and 12 bytes of
    data: record 0 is read (its field reaches byte 76 of 77), the field of
    record 1 passes the end of the buffer, record 2 is truncated. *)
Definition wideFieldTruncated : list byte :=
  preamble 3 65 5 ++ descriptor "NAME" "C" 10 ++ [x0d]
  ++ list_byte_of_string "            ".

(** A header and a descriptor table, and no byte of data. *)
Definition headerOnly : list byte :=
  preamble 0 65 11 ++ descriptor "NAME" "C" 10 ++ [x0d].

(** Two descriptors, the second with an empty name; three declared records,
    of which the second is deleted and the third is cut short. *)
Definition twoFields : list byte :=
  preamble 3 97 6 ++ descriptor "ID" "N" 2 ++ descriptor EmptyString "C" 3
  ++ [x0d]
  ++ list_byte_of_string " 1 a,b" ++ list_byte_of_string "*2 xyz"
  ++ list_byte_of_string " 3".

(** The fields that [twoFields] declares. *)
Definition fieldID : DbfFieldMeta :=
  {| field_name := lit "ID"; field_type := lit "N";
     field_length := 2; field_decimalCount := 0 |}.

Definition fieldTwo : DbfFieldMeta :=
  {| field_name := lit "FIELD_2"; field_type := lit "C";
     field_length := 3; field_decimalCount := 0 |}.

(** The field that [minimal] and its variants declare. *)
Definition fieldNAME : DbfFieldMeta :=
  {| field_name := lit "NAME"; field_type := lit "C";
     field_length := 10; field_decimalCount := 0 |}.

(** What [twoFields] converts to: one row out of three declared records. *)
Definition twoFieldsResult : DbfCsvResult :=
  {| csv := lit "ID,FIELD_2" ++ [CR; LF] ++ lit "1,"
            ++ [DQUOTE] ++ lit "a,b" ++ [DQUOTE];
     recordCount := 3;
     parsedRecords := 1;
     headerLength := 97;
     recordLength := 6;
     fields := [fieldID; fieldTwo] |}.

(** ** Vocabulary of the properties *)

(** Where record [rowIndex] starts (line 84). *)
Definition recordOffsetOf (dataStart recordLength rowIndex : N) : N :=
  dataStart + rowIndex * recordLength.

(** The full span of record [rowIndex] lies inside the buffer. *)
Definition inBounds (buffer : list byte) (dataStart recordLength rowIndex : N)
  : bool :=
  recordOffsetOf dataStart recordLength rowIndex + recordLength
    <=? byteLength buffer.

(** The deletion flag of record [rowIndex] is 0x2A. *)
Definition isDeleted (buffer : list byte) (dataStart recordLength rowIndex : N)
  : bool :=
  match getUint8 buffer (recordOffsetOf dataStart recordLength rowIndex) with
  | Ok flag => flag =? 0x2a
  | Throw _ => false
  end.

Definition deletedInBounds (buffer : list byte)
    (dataStart recordLength rowIndex : N) : bool :=
  inBounds buffer dataStart recordLength rowIndex
  && isDeleted buffer dataStart recordLength rowIndex.

(** In bounds and not deleted: the records that are decoded. *)
Definition live (buffer : list byte) (dataStart recordLength rowIndex : N)
  : bool :=
  inBounds buffer dataStart recordLength rowIndex
  && negb (isDeleted buffer dataStart recordLength rowIndex).

(** The row indices [start, start + count). *)
Fixpoint indices (start : N) (count : nat) : list N :=
  match count with
  | O => []
  | S count' => start :: indices (start + 1) count'
  end.

(** How many of the indices [start, start + count) satisfy [p]. *)
Fixpoint countFrom (p : N -> bool) (start : N) (count : nat) : N :=
  match count with
  | O => 0
  | S count' => (if p start then 1 else 0) + countFrom p (start + 1) count'
  end.

(** The declared lengths of the fields, summed. *)
Definition totalLength (fields : list DbfFieldMeta) : N :=
  fold_right (fun field acc => field_length field + acc) 0 fields.

(** The fields of record [rowIndex] end inside the buffer. *)
Definition fieldsFit (buffer : list byte) (fields : list DbfFieldMeta)
    (dataStart recordLength rowIndex : N) : Prop :=
  recordOffsetOf dataStart recordLength rowIndex + 1 + totalLength fields
    <= byteLength buffer.

(** The sanitized text of each field of the record whose first field starts
    at [fieldOffset]. *)
Fixpoint valuesOf (buffer : list byte) (fields : list DbfFieldMeta)
    (fieldOffset : N) : list jsstring :=
  match fields with
  | [] => []
  | field :: fields' =>
      sanitizeText
        (firstn (N.to_nat (field_length field))
           (skipn (N.to_nat fieldOffset) buffer))
      :: valuesOf buffer fields' (fieldOffset + field_length field)
  end.

(** The CSV text of a row of cell values. *)
Definition rowText (values : list jsstring) : jsstring :=
  join [COMMA] (map escapeCsv values).

(** The outcome of decoding record [rowIndex]: its row, or the error of the
    field loop. *)
Definition rowOf (buffer : list byte) (fields : list DbfFieldMeta)
    (dataStart recordLength rowIndex : N) : result jsstring :=
  csvCells <-
    fieldLoop buffer fields
      (recordOffsetOf dataStart recordLength rowIndex + 1) [] ;;
  Ok (join [COMMA] csvCells).

Fixpoint mapM {A B : Type} (f : A -> result B) (l : list A)
  : result (list B) :=
  match l with
  | [] => Ok []
  | a :: l' => b <- f a ;; bs <- mapM f l' ;; Ok (b :: bs)
  end.

(** ** Reading CSV text back *)

Module Rfc4180.

(** A lenient reader, in which CRLF separates rows and a comma separates
    cells: a cell is either bare text or a quoted text in which two double
    quotes stand for one.  Every CRLF outside quotes starts a new row, so
    the text always has one row more than it has such CRLFs, a final CRLF
    included, and an empty line is a row of one empty cell; it does not
    refuse text outside the grammar of RFC 4180 (see [read] for that).
    [quoted] tells whether the reader is inside quotes, [cell] and [row]
    are the cell and the row read so far. *)
Fixpoint parseFrom (quoted : bool) (cell : jsstring) (row : list jsstring)
    (text : jsstring) : list (list jsstring) :=
  match text with
  | [] => [row ++ [cell]]
  | c :: text' =>
      if quoted then
        if c =? DQUOTE then
          match text' with
          | d :: text'' =>
              if d =? DQUOTE
              then parseFrom true (cell ++ [DQUOTE]) row text''
              else parseFrom false cell row text'
          | [] => parseFrom false cell row text'
          end
        else parseFrom true (cell ++ [c]) row text'
      else
        if c =? DQUOTE then parseFrom true cell row text'
        else if c =? COMMA then parseFrom false [] (row ++ [cell]) text'
        else if c =? CR then
          match text' with
          | d :: text'' =>
              if d =? LF
              then (row ++ [cell]) :: parseFrom false [] [] text''
              else parseFrom false (cell ++ [c]) row text'
          | [] => parseFrom false (cell ++ [c]) row text'
          end
        else parseFrom false (cell ++ [c]) row text'
  end.

Definition parse (text : jsstring) : list (list jsstring) :=
  parseFrom false [] [] text.

(** The text begins with the character [c]. *)
Definition startsWith (c : N) (text : jsstring) : bool :=
  match text with
  | d :: _ => d =? c
  | [] => false
  end.

(** Where the reader of RFC 4180 stands: at the start of a cell (and, with
    [true], at the start of a line), inside a bare cell, inside a quoted
    cell, or just after the closing quote of one. *)
Inductive state : Type :=
| AtCell (lineStart : bool)
| InBare
| InQuoted
| AfterQuoted.

(** The reader of RFC 4180, section 2:
      file = record *(CRLF record) [CRLF],  record = field *(COMMA field),
      field = escaped / non-escaped,
      escaped = DQUOTE *(TEXTDATA / COMMA / CR / LF / 2DQUOTE) DQUOTE,
      non-escaped = *TEXTDATA.
    The last record may or may not have an ending line break (rule 2): a
    text that ends at the start of a line has no further record.  An empty
    line before the end is the record of one empty field.  A quote in or
    after a bare cell, a CR or LF in a bare cell, anything but a comma or
    CRLF after a closing quote, and an open quote at the end are refused.
    TEXTDATA is every code unit but comma, double quote, CR and LF: the
    printable ASCII of the RFC, widened to the code units of a JavaScript
    string. *)
Fixpoint readFrom (st : state) (cell : jsstring) (row : list jsstring)
    (text : jsstring) : option (list (list jsstring)) :=
  match text with
  | [] =>
      match st with
      | AtCell true => Some []
      | InQuoted => None
      | _ => Some [row ++ [cell]]
      end
  | c :: text' =>
      match st with
      | InQuoted =>
          if c =? DQUOTE then
            match text' with
            | d :: text'' =>
                if d =? DQUOTE
                then readFrom InQuoted (cell ++ [DQUOTE]) row text''
                else readFrom AfterQuoted cell row text'
            | [] => readFrom AfterQuoted cell row text'
            end
          else readFrom InQuoted (cell ++ [c]) row text'
      | _ =>
          if c =? COMMA then readFrom (AtCell false) [] (row ++ [cell]) text'
          else if c =? CR then
            match text' with
            | d :: text'' =>
                if d =? LF
                then option_map (cons (row ++ [cell]))
                       (readFrom (AtCell true) [] [] text'')
                else None
            | [] => None
            end
          else
            match st with
            | AfterQuoted => None
            | AtCell _ =>
                if c =? DQUOTE then readFrom InQuoted cell row text'
                else if c =? LF then None
                else readFrom InBare (cell ++ [c]) row text'
            | _ =>
                if c =? DQUOTE then None
                else if c =? LF then None
                else readFrom InBare (cell ++ [c]) row text'
            end
      end
  end.

Definition read (text : jsstring) : option (list (list jsstring)) :=
  readFrom (AtCell true) [] [] text.

End Rfc4180.

(** ** Vocabulary of the CSV cells *)

(** The characters that force a cell into quotes. *)
Definition special (c : N) : Prop :=
  c = COMMA \/ c = DQUOTE \/ c = LF \/ c = CR.

(** A text between two double quotes. *)
Definition wrapped (s : jsstring) : Prop :=
  exists body, s = DQUOTE :: body ++ [DQUOTE].

(** Every double quote written twice. *)
Definition doubled (s : jsstring) : jsstring :=
  flat_map (fun c => if c =? DQUOTE then [DQUOTE; DQUOTE] else [c]) s.

(** The text [He said "hi", ok] and its CSV cell. *)
Definition heSaid : jsstring :=
  lit "He said " ++ [DQUOTE] ++ lit "hi" ++ [DQUOTE] ++ lit ", ok".

Definition heSaidCell : jsstring :=
  [DQUOTE] ++ lit "He said " ++ [DQUOTE; DQUOTE] ++ lit "hi"
  ++ [DQUOTE; DQUOTE] ++ lit ", ok" ++ [DQUOTE].

(** Entry [k] of [fields] was read from the [k]-th 32-byte slot after the
    preamble, with ordinal [k + 1]. *)
Definition descriptorsRead (buffer : list byte) (fields : list DbfFieldMeta)
  : Prop :=
  forall k field,
    nth_error fields k = Some field ->
    readDescriptor buffer (32 + 32 * N.of_nat k) (N.of_nat k + 1) = Ok field.

(** ** The caller (src/App.tsx) *)

(** What the page keeps of a conversion (lines 47-54 and 365-372). *)
Record DbfSummary : Type := {
  fileName : jsstring;
  declaredRecords : N;
  summaryParsedRecords : N;
  summaryFields : N;
  summaryHeaderLength : N;
  summaryRecordLength : N
}.

(** [/\.dbf$/i] matches the whole of [s]: a dot and the letters d, b and f,
    each in either case, and then the end of the text. *)
Definition isDbfSuffix (s : jsstring) : bool :=
  match s with
  | [c0; c1; c2; c3] =>
      (c0 =? 46) && ((c1 =? 100) || (c1 =? 68))
      && ((c2 =? 98) || (c2 =? 66)) && ((c3 =? 102) || (c3 =? 70))
  | _ => false
  end.

(** [s.replace(/\.dbf$/i, [])]: the text is searched from the left for a
    place where the pattern matches, and the match is removed. *)
Fixpoint replaceDbfSuffix (s : jsstring) : jsstring :=
  if isDbfSuffix s then []
  else
    match s with
    | [] => []
    | c :: s' => c :: replaceDbfSuffix s'
    end.

(** The name offered for the download (lines 276-280). *)
Definition dbfDownloadName (dbfSummary : option DbfSummary) : jsstring :=
  match dbfSummary with
  | None => lit "dbf-export.csv"
  | Some summary =>
      let base :=
        match replaceDbfSuffix (fileName summary) with
        | [] => lit "dbf-export"
        | stripped => stripped
        end in
      base ++ lit ".csv"
  end.

(** ** Vocabulary of the further properties *)

(** The live records among the declared ones. *)
Definition liveIndices (buffer : list byte) (rc hl rl : N) : list N :=
  filter (live buffer hl rl) (indices 0 (N.to_nat rc)).

(** The table that a successful conversion writes: the field names, then
    the values of the live records. *)
Definition tableOf (buffer : list byte) (fs : list DbfFieldMeta)
    (rc hl rl : N) : list (list jsstring) :=
  map field_name fs
  :: map (fun j => valuesOf buffer fs (recordOffsetOf hl rl j + 1))
       (liveIndices buffer rc hl rl).

(** Two buffers of one length that agree on every byte but bytes 0-3 and
    12-31 of the preamble. *)
Definition agreeOutsideUnused (b1 b2 : list byte) : Prop :=
  List.length b1 = List.length b2
  /\ forall i, (4 <= i < 12 \/ 32 <= i)%nat -> nth_error b1 i = nth_error b2 i.

(** The text neither begins nor ends with white space. *)
Definition trimmed (s : jsstring) : Prop :=
  (forall c s', s = c :: s' -> isWhiteSpace c = false)
  /\ (forall c s', s = s' ++ [c] -> isWhiteSpace c = false).

(** A byte that decodes to NUL or to white space. *)
Definition isPadding (b : byte) : bool :=
  (decodeByte b =? 0) || isWhiteSpace (decodeByte b).

(** The window of a field of [length] bytes at [fieldOffset]. *)
Definition window (buffer : list byte) (fieldOffset length : N) : list byte :=
  firstn (N.to_nat length) (skipn (N.to_nat fieldOffset) buffer).

(** [minimal] without the terminator: the header ends with the one
    descriptor, at byte 64. *)
Definition unterminated : list byte :=
  preamble 1 64 11 ++ descriptor "NAME" "C" 10
  ++ [x20] ++ list_byte_of_string "HELLO     ".

(** [minimal] with its one record flagged as deleted. *)
Definition allDeleted : list byte :=
  preamble 1 65 11 ++ descriptor "NAME" "C" 10 ++ [x0d]
  ++ [x2a] ++ list_byte_of_string "HELLO     ".

(** The rows of values of the live records: the table without its header
    row. *)
Definition valueRows (buffer : list byte) (fs : list DbfFieldMeta)
    (rc hl rl : N) : list (list jsstring) :=
  map (fun j => valuesOf buffer fs (recordOffsetOf hl rl j + 1))
    (liveIndices buffer rc hl rl).

(** The last row of the table is written as the empty text. *)
Fixpoint blankLast (table : list (list jsstring)) : bool :=
  match table with
  | [] => false
  | values :: rest =>
      match rest with
      | [] => match rowText values with [] => true | _ => false end
      | _ => blankLast rest
      end
  end.

(** The table without its last row when that row is written as the empty
    text. *)
Fixpoint dropBlankLast (table : list (list jsstring))
  : list (list jsstring) :=
  match table with
  | [] => []
  | values :: rest =>
      match rest with
      | [] => match rowText values with [] => [] | _ => [values] end
      | _ => values :: dropBlankLast rest
      end
  end.

(** [minimal] with a blank record: ten spaces in its one field. *)
Definition blankRecord : list byte :=
  preamble 1 65 11 ++ descriptor "NAME" "C" 10 ++ [x0d]
  ++ [x20] ++ list_byte_of_string "          ".

(** A file of 32 zero bytes but for a record length of 5. *)
Definition zeroHeader : list byte := preamble 0 0 5.

(** [minimal] with other bytes in the unused parts of the preamble. *)
Definition minimalStamped : list byte :=
  [x03; x7e; x0b; x03] ++ [x01; x00; x00; x00] ++ [x41; x00] ++ [x0b; x00]
  ++ repeat xff 20 ++ descriptor "NAME" "C" 10 ++ [x0d]
  ++ [x20] ++ list_byte_of_string "HELLO     ".

(** ** Reads inside the buffer *)

Ltac inv H := inversion H; subst; clear H.

Lemma bind_Ok {A B : Type} (c : result A) (k : A -> result B) (b : B) :
  bind c k = Ok b -> exists a, c = Ok a /\ k a = Ok b.
Proof.
  destruct c as [a|e]; simpl; intros H; [eauto | discriminate].
Qed.

Lemma bind_Throw {A B : Type} (c : result A) (k : A -> result B) e :
  bind c k = Throw e ->
  c = Throw e \/ exists a, c = Ok a /\ k a = Throw e.
Proof.
  destruct c as [a|e']; simpl; intros H; [right; eauto | left; congruence].
Qed.

Lemma getUint8_inside buffer byteOffset :
  byteOffset < byteLength buffer ->
  exists b, getUint8 buffer byteOffset = Ok b.
Proof.
  unfold getUint8, byteLength. intros H.
  destruct (nth_error buffer (N.to_nat byteOffset)) as [b|] eqn:E.
  - eauto.
  - apply nth_error_None in E. lia.
Qed.

Lemma getUint8_Ok buffer byteOffset b :
  getUint8 buffer byteOffset = Ok b -> byteOffset < byteLength buffer.
Proof.
  unfold getUint8, byteLength.
  destruct (nth_error buffer (N.to_nat byteOffset)) as [c|] eqn:E;
    [| discriminate].
  intros _.
  assert (N.to_nat byteOffset < List.length buffer)%nat
    by (apply nth_error_Some; congruence).
  lia.
Qed.

Lemma getUint8_Throw buffer byteOffset e :
  getUint8 buffer byteOffset = Throw e -> e = RangeError.
Proof.
  unfold getUint8.
  destruct (nth_error buffer (N.to_nat byteOffset)); congruence.
Qed.

Lemma Uint8Array_inside buffer byteOffset length :
  byteOffset + length <= byteLength buffer ->
  Uint8Array buffer byteOffset length
  = Ok (firstn (N.to_nat length) (skipn (N.to_nat byteOffset) buffer)).
Proof.
  unfold Uint8Array. intros H.
  apply N.leb_le in H. rewrite H. reflexivity.
Qed.

(** ** The runtime on small inputs *)

Example decodeByte_euro : decodeByte x80 = 0x20AC.
Proof. reflexivity. Qed.

Example decodeByte_latin : decodeByte xe9 = 0xE9.
Proof. reflexivity. Qed.

Example trim_both_ends :
  trim ([0x20; 0x09] ++ lit "a b" ++ [0xA0; 0x0D; 0x0A]) = lit "a b".
Proof. reflexivity. Qed.

Example sanitizeText_padded :
  sanitizeText (list_byte_of_string "NAME" ++ zeros 7) = lit "NAME".
Proof. reflexivity. Qed.

Example sanitizeText_blank :
  sanitizeText (list_byte_of_string "   " ++ zeros 8) = [].
Proof. reflexivity. Qed.

Example numberToString_12 : numberToString 12 = lit "12".
Proof. reflexivity. Qed.

Example getUint16_little_endian :
  getUint16 [x00; x41; x01] 1 = Ok 321.
Proof. reflexivity. Qed.

Example Uint8Array_window :
  Uint8Array [x01; x02; x03; x04] 1 2 = Ok [x02; x03]
  /\ Uint8Array [x01; x02; x03; x04] 4 0 = Ok []
  /\ Uint8Array [x01; x02; x03; x04] 3 2 = Throw RangeError.
Proof. repeat split. Qed.

(** ** The field loop *)

Lemma fieldLoop_fits buffer fs :
  forall fieldOffset csvCells,
    fieldOffset + totalLength fs <= byteLength buffer ->
    fieldLoop buffer fs fieldOffset csvCells
    = Ok (csvCells ++ map escapeCsv (valuesOf buffer fs fieldOffset)).
Proof.
  induction fs as [|f fs IH]; intros off acc Hfit; simpl in *.
  - rewrite app_nil_r. reflexivity.
  - destruct (byteLength buffer <? off + field_length f) eqn:E.
    + apply N.ltb_lt in E. lia.
    + apply N.ltb_ge in E.
      rewrite (Uint8Array_inside _ _ _ E). simpl.
      rewrite IH by lia.
      rewrite <- app_assoc. reflexivity.
Qed.

Lemma fieldLoop_overflow buffer fs :
  forall fieldOffset csvCells,
    fieldOffset <= byteLength buffer ->
    byteLength buffer < fieldOffset + totalLength fs ->
    fieldLoop buffer fs fieldOffset csvCells = Throw RecordBeyondFile.
Proof.
  induction fs as [|f fs IH]; intros off acc Hoff Hover; simpl in *.
  - lia.
  - destruct (byteLength buffer <? off + field_length f) eqn:E;
      [reflexivity |].
    apply N.ltb_ge in E.
    rewrite (Uint8Array_inside _ _ _ E). simpl.
    apply IH; lia.
Qed.

Lemma fieldLoop_Ok buffer fs :
  forall fieldOffset csvCells cells,
    fieldLoop buffer fs fieldOffset csvCells = Ok cells ->
    cells = csvCells ++ map escapeCsv (valuesOf buffer fs fieldOffset).
Proof.
  induction fs as [|f fs IH]; intros off acc cells H; simpl in *.
  - inv H. rewrite app_nil_r. reflexivity.
  - destruct (byteLength buffer <? off + field_length f) eqn:E;
      [discriminate |].
    apply N.ltb_ge in E.
    rewrite (Uint8Array_inside _ _ _ E) in H. simpl in H.
    rewrite (IH _ _ _ H), <- app_assoc. reflexivity.
Qed.

Lemma valuesOf_length buffer fs :
  forall fieldOffset,
    List.length (valuesOf buffer fs fieldOffset) = List.length fs.
Proof.
  induction fs as [|f fs IH]; intros off; simpl; [| rewrite IH]; reflexivity.
Qed.

Section Records.

Variables (buffer : list byte) (fs : list DbfFieldMeta).
Variables (dataStart recLen : N).
Hypothesis recLen_pos : 0 < recLen.

Lemma rowOf_fits rowIndex :
  fieldsFit buffer fs dataStart recLen rowIndex ->
  rowOf buffer fs dataStart recLen rowIndex
  = Ok (rowText
          (valuesOf buffer fs
             (recordOffsetOf dataStart recLen rowIndex + 1))).
Proof.
  intros Hfit. unfold rowOf.
  rewrite fieldLoop_fits by exact Hfit. reflexivity.
Qed.

Lemma rowOf_overflow rowIndex :
  inBounds buffer dataStart recLen rowIndex = true ->
  ~ fieldsFit buffer fs dataStart recLen rowIndex ->
  rowOf buffer fs dataStart recLen rowIndex = Throw RecordBeyondFile.
Proof.
  unfold inBounds, fieldsFit. intros Hin Hover.
  apply N.leb_le in Hin. unfold rowOf.
  rewrite fieldLoop_overflow by lia. reflexivity.
Qed.

Lemma inBounds_down i j :
  i <= j ->
  inBounds buffer dataStart recLen j = true ->
  inBounds buffer dataStart recLen i = true.
Proof.
  unfold inBounds, recordOffsetOf. intros Hij Hj.
  apply N.leb_le in Hj. apply N.leb_le. nia.
Qed.

Lemma no_live_after i count :
  inBounds buffer dataStart recLen i = false ->
  filter (live buffer dataStart recLen) (indices i count) = [].
Proof.
  revert i. induction count as [|count IH]; intros i Hout; simpl.
  - reflexivity.
  - unfold live at 1. rewrite Hout. simpl.
    apply IH.
    destruct (inBounds buffer dataStart recLen (i + 1)) eqn:E;
      [| reflexivity].
    rewrite (inBounds_down i (i + 1)) in Hout by (lia || exact E).
    discriminate.
Qed.

(** The record loop decodes the live records among the declared ones, in
    order, and stops at the first error of the field loop. *)
Lemma recordLoop_eq remaining :
  forall rowIndex rows parsed,
    recordLoop buffer fs dataStart recLen remaining rowIndex rows parsed
    = (dataRows <-
         mapM (rowOf buffer fs dataStart recLen)
           (filter (live buffer dataStart recLen)
              (indices rowIndex remaining)) ;;
       Ok (rows ++ dataRows, parsed + N.of_nat (List.length dataRows))).
Proof.
  induction remaining as [|remaining IH]; intros i rows parsed.
  - simpl. rewrite app_nil_r, N.add_0_r. reflexivity.
  - cbn [recordLoop].
    fold (recordOffsetOf dataStart recLen i).
    destruct (byteLength buffer <? recordOffsetOf dataStart recLen i + recLen)
      eqn:E.
    + assert (Hout : inBounds buffer dataStart recLen i = false).
      { unfold inBounds. apply N.leb_gt. apply N.ltb_lt. exact E. }
      rewrite (no_live_after i (S remaining) Hout). simpl.
      rewrite app_nil_r, N.add_0_r. reflexivity.
    + assert (Hin : inBounds buffer dataStart recLen i = true).
      { unfold inBounds. apply N.leb_le. apply N.ltb_ge. exact E. }
      apply N.ltb_ge in E.
      destruct (getUint8_inside buffer (recordOffsetOf dataStart recLen i))
        as [flag Hflag]; [lia |].
      cbn [indices filter]. unfold live at 1, isDeleted at 1.
      rewrite Hin, Hflag. cbn [bind andb].
      destruct (flag =? 42) eqn:Edel; cbn [negb].
      * apply IH.
      * cbn [mapM]. unfold rowOf at 1.
        destruct (fieldLoop buffer fs (recordOffsetOf dataStart recLen i + 1) [])
          as [cells|e]; cbn [bind]; [| reflexivity].
        rewrite IH.
        destruct (mapM _ _) as [dataRows|e]; cbn [bind]; [| reflexivity].
        cbn [List.length]. rewrite <- app_assoc. simpl app.
        f_equal. f_equal. lia.
Qed.

End Records.

(** ** Sequencing over a list *)

Lemma mapM_Ok {A B : Type} (f : A -> result B) l :
  forall bs, mapM f l = Ok bs -> Forall2 (fun a b => f a = Ok b) l bs.
Proof.
  induction l as [|a l IH]; simpl; intros bs H.
  - inv H. constructor.
  - destruct (f a) as [b|e] eqn:Ea; simpl in H; [| discriminate].
    destruct (mapM f l) as [bs'|e]; simpl in H; [| discriminate].
    inv H. constructor; auto.
Qed.

Lemma mapM_all {A B : Type} (f : A -> result B) (g : A -> B) l :
  (forall a, In a l -> f a = Ok (g a)) -> mapM f l = Ok (map g l).
Proof.
  induction l as [|a l IH]; simpl; intros H; [reflexivity |].
  rewrite (H a) by auto. simpl. rewrite IH by auto. reflexivity.
Qed.

Lemma mapM_Throw {A B : Type} (f : A -> result B) l e :
  mapM f l = Throw e -> exists a, In a l /\ f a = Throw e.
Proof.
  induction l as [|a l IH]; simpl; intros H; [discriminate |].
  destruct (f a) as [b|e'] eqn:Ea; simpl in H.
  - destruct (mapM f l) as [bs|e'']; simpl in H; [discriminate |].
    destruct IH as [a' [Hin Ha']]; [congruence |]. eauto.
  - exists a. split; [auto | congruence].
Qed.

Lemma mapM_fails {A B : Type} (f : A -> result B) l e :
  (forall a, In a l -> f a = Throw e \/ exists b, f a = Ok b) ->
  (exists a, In a l /\ f a = Throw e) ->
  mapM f l = Throw e.
Proof.
  induction l as [|a l IH]; simpl; intros Hall [a' [Hin Ha']];
    [contradiction |].
  destruct (Hall a) as [Ha | [b Ha]]; [auto | |]; rewrite Ha; simpl;
    [reflexivity |].
  rewrite IH; [reflexivity | auto |].
  destruct Hin as [-> | Hin]; [congruence | eauto].
Qed.

Lemma indices_In start count i :
  In i (indices start count) <-> start <= i < start + N.of_nat count.
Proof.
  revert start. induction count as [|count IH]; intros start; simpl.
  - split; [contradiction | lia].
  - rewrite IH. split.
    + intros [<- | H]; lia.
    + intros H. destruct (N.eq_dec start i); [auto | right; lia].
Qed.

Lemma indices_app start c1 c2 :
  indices start (c1 + c2)
  = indices start c1 ++ indices (start + N.of_nat c1) c2.
Proof.
  revert start. induction c1 as [|c1 IH]; intros start.
  - simpl. rewrite N.add_0_r. reflexivity.
  - cbn [Nat.add indices app]. rewrite IH. do 3 f_equal. lia.
Qed.

(** ** The converter, phase by phase *)

Lemma readPreamble_Ok buffer rc hl rl :
  readPreamble buffer = Ok (rc, hl, rl) ->
  32 <= byteLength buffer /\ 0 < hl /\ 0 < rl /\ hl <= byteLength buffer.
Proof.
  unfold readPreamble.
  destruct (byteLength buffer <? 32) eqn:E32; [discriminate |].
  intros H.
  apply bind_Ok in H. destruct H as [rc' [_ H]].
  apply bind_Ok in H. destruct H as [hl' [_ H]].
  apply bind_Ok in H. destruct H as [rl' [_ H]].
  destruct ((hl' =? 0) || (rl' =? 0)) eqn:Ez; [discriminate |].
  destruct (byteLength buffer <? hl') eqn:Eh; [discriminate |].
  inv H.
  apply orb_false_iff in Ez. destruct Ez as [Ez1 Ez2].
  apply N.eqb_neq in Ez1, Ez2.
  apply N.ltb_ge in E32, Eh. lia.
Qed.

(** After the three validations, the result is that of decoding the live
    records among the declared ones. *)
Lemma convert_scan buffer rc hl rl fs off :
  readPreamble buffer = Ok (rc, hl, rl) ->
  descriptorLoop buffer hl 32 [] = Ok (fs, off) ->
  fs <> [] ->
  hl + rl <= byteLength buffer ->
  convertDbfToCsv buffer
  = (dataRows <-
       mapM (rowOf buffer fs hl rl)
         (filter (live buffer hl rl) (indices 0 (N.to_nat rc))) ;;
     Ok {| csv := join CRLF (headerRow fs :: dataRows);
           recordCount := rc;
           parsedRecords := N.of_nat (List.length dataRows);
           headerLength := hl;
           recordLength := rl;
           fields := fs |}).
Proof.
  intros Hpre Hdesc Hfs Hroom.
  pose proof (readPreamble_Ok _ _ _ _ Hpre) as [_ [_ [Hrl _]]].
  unfold convertDbfToCsv. rewrite Hpre. cbn [bind]. rewrite Hdesc. cbn [bind].
  destruct fs as [|f fs']; [congruence |].
  apply N.ltb_ge in Hroom. rewrite Hroom.
  rewrite (recordLoop_eq buffer (f :: fs') hl rl Hrl).
  destruct (mapM _ _) as [dataRows|e]; reflexivity.
Qed.

Lemma convert_Ok buffer r :
  convertDbfToCsv buffer = Ok r ->
  exists off,
    readPreamble buffer = Ok (recordCount r, headerLength r, recordLength r)
    /\ descriptorLoop buffer (headerLength r) 32 [] = Ok (fields r, off)
    /\ fields r <> []
    /\ headerLength r + recordLength r <= byteLength buffer.
Proof.
  unfold convertDbfToCsv. intros H.
  apply bind_Ok in H. destruct H as [[[rc hl] rl] [Hpre H]].
  apply bind_Ok in H. destruct H as [[fs off] [Hdesc H]].
  destruct fs as [|f fs']; [discriminate |].
  destruct (byteLength buffer <? hl + rl) eqn:Eroom; [discriminate |].
  apply bind_Ok in H. destruct H as [[rows parsed] [_ H]].
  inv H. cbn. exists off.
  apply N.ltb_ge in Eroom. repeat split; auto. discriminate.
Qed.

Lemma convert_Ok_rows buffer r :
  convertDbfToCsv buffer = Ok r ->
  exists dataRows,
    mapM (rowOf buffer (fields r) (headerLength r) (recordLength r))
      (filter (live buffer (headerLength r) (recordLength r))
         (indices 0 (N.to_nat (recordCount r))))
    = Ok dataRows
    /\ csv r = join CRLF (headerRow (fields r) :: dataRows)
    /\ parsedRecords r = N.of_nat (List.length dataRows).
Proof.
  intros H.
  destruct (convert_Ok _ _ H) as [off [Hpre [Hdesc [Hfs Hroom]]]].
  rewrite (convert_scan _ _ _ _ _ _ Hpre Hdesc Hfs Hroom) in H.
  destruct (mapM _ _) as [dataRows|e]; [| discriminate].
  exists dataRows. cbn in H. inv H. cbn. auto.
Qed.

(** ** The minimal file *)

(** C3: the 76-byte file with one field NAME (type C, length 10) and one
    record HELLO converts to the CSV text NAME, CRLF, HELLO, with one parsed
    record out of one declared, header length 65, record length 11 and
    exactly one field. *)
Theorem convert_minimal :
  List.length minimal = 76%nat
  /\ convertDbfToCsv minimal
     = Ok {| csv := lit "NAME" ++ [CR; LF] ++ lit "HELLO";
             recordCount := 1;
             parsedRecords := 1;
             headerLength := 65;
             recordLength := 11;
             fields := [ {| field_name := lit "NAME";
                            field_type := lit "C";
                            field_length := 10;
                            field_decimalCount := 0 |} ] |}.
Proof.
  split; vm_compute; reflexivity.
Qed.

(** ** Escaping *)

Lemma includes_In s c : includes s c = true <-> In c s.
Proof.
  unfold includes. rewrite existsb_exists. split.
  - intros [x [Hin Hx]]. apply N.eqb_eq in Hx. subst. exact Hin.
  - intros Hin. exists c. split; [exact Hin | apply N.eqb_refl].
Qed.

Lemma replaceAll_absent s c by_ : ~ In c s -> replaceAll s c by_ = s.
Proof.
  induction s as [|d s IH]; simpl; intros Hno; [reflexivity |].
  destruct (d =? c) eqn:E.
  - apply N.eqb_eq in E. subst. exfalso. auto.
  - simpl. rewrite IH by auto. reflexivity.
Qed.

Lemma replaceAll_doubled s :
  replaceAll s DQUOTE [DQUOTE; DQUOTE] = doubled s.
Proof.
  induction s as [|d s IH]; simpl; [reflexivity |].
  rewrite IH. reflexivity.
Qed.

Lemma needsWrapper_special value :
  includes value COMMA || includes value DQUOTE
  || includes value LF || includes value CR = true
  <-> exists c, In c value /\ special c.
Proof.
  rewrite !orb_true_iff, !includes_In. unfold special. split.
  - intros [[[H|H]|H]|H]; eauto 6.
  - intros [c [Hin [-> | [-> | [-> | ->]]]]]; auto.
Qed.

Lemma escapeCsv_special value :
  (exists c, In c value /\ special c) ->
  escapeCsv value = DQUOTE :: doubled value ++ [DQUOTE].
Proof.
  intros H. apply needsWrapper_special in H.
  unfold escapeCsv. rewrite H, replaceAll_doubled. reflexivity.
Qed.

Lemma escapeCsv_plain value :
  ~ (exists c, In c value /\ special c) -> escapeCsv value = value.
Proof.
  intros H. unfold escapeCsv.
  destruct (includes value COMMA || includes value DQUOTE
            || includes value LF || includes value CR) eqn:E.
  - exfalso. apply H, needsWrapper_special, E.
  - apply replaceAll_absent. intros Hq. apply H.
    exists DQUOTE. unfold special. auto.
Qed.

(** C6: a value (a cell or a field name) is written between double quotes
    if and only if it contains a comma, a double quote, LF or CR; a quoted
    value has each of its double quotes written twice, any other value is
    written as it is; the text He said, quote, hi, quote, comma, ok becomes
    the cell [heSaidCell]; the header row applies the rule to the field
    names and every record row applies it to the sanitized field values. *)
Theorem escapeCsv_quoting :
  forall value,
    (wrapped (escapeCsv value) <-> exists c, In c value /\ special c)
    /\ ((exists c, In c value /\ special c) ->
        escapeCsv value = DQUOTE :: doubled value ++ [DQUOTE])
    /\ (~ (exists c, In c value /\ special c) -> escapeCsv value = value)
    /\ escapeCsv heSaid = heSaidCell
    /\ (forall fs,
          headerRow fs = join [COMMA] (map escapeCsv (map field_name fs)))
    /\ (forall buffer fs fieldOffset cells,
          fieldLoop buffer fs fieldOffset [] = Ok cells ->
          cells = map escapeCsv (valuesOf buffer fs fieldOffset)).
Proof.
  intros value. split; [| split; [| split; [| split; [| split]]]].
  - split.
    + intros [body Hbody].
      destruct (includes value COMMA || includes value DQUOTE
                || includes value LF || includes value CR) eqn:E.
      * apply needsWrapper_special, E.
      * assert (Hplain : escapeCsv value = value).
        { apply escapeCsv_plain. intros H.
          apply needsWrapper_special in H. congruence. }
        rewrite Hplain in Hbody. exists DQUOTE. split.
        -- rewrite Hbody. left. reflexivity.
        -- unfold special. auto.
    + intros H. rewrite (escapeCsv_special _ H). eexists. reflexivity.
  - apply escapeCsv_special.
  - apply escapeCsv_plain.
  - vm_compute. reflexivity.
  - intros fs. unfold headerRow. rewrite map_map. reflexivity.
  - intros buffer fs off cells H. apply (fieldLoop_Ok buffer fs off [] cells H).
Qed.

(** ** The descriptor table *)

Lemma descriptorsRead_nil buffer : descriptorsRead buffer [].
Proof.
  intros k f H. destruct k; discriminate.
Qed.

Lemma descriptorsRead_snoc buffer fs f :
  descriptorsRead buffer fs ->
  readDescriptor buffer (32 + 32 * N.of_nat (List.length fs))
    (N.of_nat (List.length fs) + 1) = Ok f ->
  descriptorsRead buffer (fs ++ [f]).
Proof.
  intros Hfs Hf k g Hk.
  destruct (Nat.lt_ge_cases k (List.length fs)) as [Hlt | Hge].
  - rewrite nth_error_app1 in Hk by exact Hlt. auto.
  - rewrite nth_error_app2 in Hk by exact Hge.
    destruct (k - List.length fs)%nat as [|m] eqn:E; simpl in Hk.
    + inv Hk. replace k with (List.length fs) by lia. exact Hf.
    + destruct m; discriminate.
Qed.

Lemma descriptorLoop_read buffer hl descriptorOffset acc :
  forall fs off,
    descriptorLoop buffer hl descriptorOffset acc = Ok (fs, off) ->
    descriptorOffset = 32 + 32 * N.of_nat (List.length acc) ->
    descriptorsRead buffer acc ->
    descriptorsRead buffer fs.
Proof.
  funelim (descriptorLoop buffer hl descriptorOffset acc);
    intros fs off Hres Hoff Hacc; try discriminate.
  - inv Hres. exact Hacc.
  - inv Hres. exact Hacc.
  - match goal with
    | IH : forall fs off, _ -> _ -> _ -> descriptorsRead _ fs |- _ =>
        apply (IH fs off Hres)
    end.
    + rewrite length_app. cbn [List.length]. lia.
    + apply descriptorsRead_snoc; [exact Hacc |].
      rewrite <- Hoff. assumption.
Qed.

(** C9: a descriptor whose name bytes sanitize to the empty text is named
    FIELD_n, n the 1-based position of the descriptor among the collected
    fields (in decimal); any other descriptor keeps its sanitized name. *)
Theorem placeholder_field_names :
  forall buffer hl fs off k field,
    descriptorLoop buffer hl 32 [] = Ok (fs, off) ->
    nth_error fs k = Some field ->
    exists nameBytes,
      Uint8Array buffer (32 + 32 * N.of_nat k) 11 = Ok nameBytes
      /\ (sanitizeText nameBytes = [] ->
          field_name field
          = lit "FIELD_" ++ numberToString (N.of_nat k + 1))
      /\ (sanitizeText nameBytes <> [] ->
          field_name field = sanitizeText nameBytes).
Proof.
  intros buffer hl fs off k field Hloop Hk.
  assert (Hread : descriptorsRead buffer fs).
  { apply (descriptorLoop_read buffer hl 32 [] fs off Hloop);
      [reflexivity | apply descriptorsRead_nil]. }
  specialize (Hread k field Hk). unfold readDescriptor in Hread.
  apply bind_Ok in Hread. destruct Hread as [nameBytes [Hname Hread]].
  apply bind_Ok in Hread. destruct Hread as [typeCode [_ Hread]].
  apply bind_Ok in Hread. destruct Hread as [len [_ Hread]].
  apply bind_Ok in Hread. destruct Hread as [dec [_ Hread]].
  inv Hread. exists nameBytes. cbn [field_name].
  split; [exact Hname |].
  destruct (sanitizeText nameBytes); split; intros H;
    congruence || reflexivity.
Qed.

(** The second descriptor of [twoFields] has an empty name. *)
Lemma placeholder_field_names_witness :
  descriptorLoop twoFields 97 32 [] = Ok ([fieldID; fieldTwo], 97)
  /\ nth_error [fieldID; fieldTwo] 1 = Some fieldTwo
  /\ exists nameBytes,
       Uint8Array twoFields (32 + 32 * N.of_nat 1) 11 = Ok nameBytes
       /\ (sanitizeText nameBytes = [] ->
           field_name fieldTwo
           = lit "FIELD_" ++ numberToString (N.of_nat 1 + 1))
       /\ (sanitizeText nameBytes <> [] ->
           field_name fieldTwo = sanitizeText nameBytes).
Proof.
  split; [vm_compute; reflexivity |].
  split; [reflexivity |].
  apply (placeholder_field_names twoFields 97 [fieldID; fieldTwo] 97 1%nat);
    vm_compute; reflexivity.
Defined.

(** ** The payload test *)

Lemma convert_no_room buffer rc hl rl fs off :
  readPreamble buffer = Ok (rc, hl, rl) ->
  descriptorLoop buffer hl 32 [] = Ok (fs, off) ->
  fs <> [] ->
  byteLength buffer < hl + rl ->
  convertDbfToCsv buffer = Throw PayloadTruncated.
Proof.
  intros Hpre Hdesc Hfs Hroom.
  unfold convertDbfToCsv. rewrite Hpre. cbn [bind]. rewrite Hdesc.
  cbn [bind]. destruct fs as [|f fs']; [congruence |].
  apply N.ltb_lt in Hroom. rewrite Hroom. reflexivity.
Qed.

(** C10: once the header and the descriptor table are accepted, a buffer
    with no room for one full record after the header is refused with the
    payload-truncated error, whatever the declared record count (zero too);
    a result is only ever returned for a buffer that has this room. *)
Theorem payload_truncated_without_room :
  forall buffer rc hl rl fs off,
    readPreamble buffer = Ok (rc, hl, rl) ->
    descriptorLoop buffer hl 32 [] = Ok (fs, off) ->
    fs <> [] ->
    byteLength buffer < hl + rl ->
    convertDbfToCsv buffer = Throw PayloadTruncated
    /\ (forall b r,
          convertDbfToCsv b = Ok r ->
          headerLength r + recordLength r <= byteLength b).
Proof.
  intros buffer rc hl rl fs off Hpre Hdesc Hfs Hroom. split.
  - apply (convert_no_room buffer rc hl rl fs off); assumption.
  - intros b r H. destruct (convert_Ok b r H) as [_ [_ [_ [_ Hr]]]].
    exact Hr.
Qed.

(** [headerOnly] declares no record and has no byte after its header. *)
Lemma payload_truncated_without_room_witness :
  readPreamble headerOnly = Ok (0, 65, 11)
  /\ descriptorLoop headerOnly 65 32 [] = Ok ([fieldNAME], 65)
  /\ byteLength headerOnly < 65 + 11
  /\ convertDbfToCsv headerOnly = Throw PayloadTruncated.
Proof.
  split; [vm_compute; reflexivity |].
  split; [vm_compute; reflexivity |].
  split; [vm_compute; reflexivity |].
  apply (payload_truncated_without_room headerOnly 0 65 11 [fieldNAME] 65).
  - vm_compute; reflexivity.
  - vm_compute; reflexivity.
  - discriminate.
  - vm_compute; reflexivity.
Defined.

(** ** Counting the records *)

Lemma declared_split buffer hl rl start count :
  N.of_nat (List.length (filter (live buffer hl rl) (indices start count)))
  + countFrom (deletedInBounds buffer hl rl) start count
  + countFrom (fun i => negb (inBounds buffer hl rl i)) start count
  = N.of_nat count.
Proof.
  revert start. induction count as [|count IH]; intros start.
  - reflexivity.
  - cbn [indices filter countFrom]. specialize (IH (start + 1)).
    unfold live at 1, deletedInBounds at 1.
    destruct (inBounds buffer hl rl start), (isDeleted buffer hl rl start);
      cbn [andb negb List.length]; lia.
Qed.

Lemma parsed_is_live buffer r :
  convertDbfToCsv buffer = Ok r ->
  parsedRecords r
  = N.of_nat
      (List.length
         (filter (live buffer (headerLength r) (recordLength r))
            (indices 0 (N.to_nat (recordCount r))))).
Proof.
  intros H. destruct (convert_Ok_rows buffer r H) as [rows [Hrows [_ Hp]]].
  apply mapM_Ok, Forall2_length in Hrows. congruence.
Qed.

(** C4: on success the parsed count is at most the declared count, and the
    declared count is the parsed count plus the in-bounds records flagged
    0x2A plus the declared indices whose span passes the end of the
    buffer. *)
Theorem parsed_count_accounting :
  forall buffer r,
    convertDbfToCsv buffer = Ok r ->
    parsedRecords r <= recordCount r
    /\ parsedRecords r
       + countFrom (deletedInBounds buffer (headerLength r) (recordLength r))
           0 (N.to_nat (recordCount r))
       + countFrom
           (fun i => negb (inBounds buffer (headerLength r) (recordLength r) i))
           0 (N.to_nat (recordCount r))
       = recordCount r.
Proof.
  intros buffer r H.
  pose proof (declared_split buffer (headerLength r) (recordLength r) 0
                (N.to_nat (recordCount r))) as Hsplit.
  rewrite <- (parsed_is_live buffer r H) in Hsplit.
  rewrite N2Nat.id in Hsplit. split; [lia | exact Hsplit].
Qed.

Lemma parsed_count_accounting_witness :
  convertDbfToCsv twoFields = Ok twoFieldsResult
  /\ countFrom (deletedInBounds twoFields 97 6) 0 3 = 1
  /\ countFrom (fun i => negb (inBounds twoFields 97 6 i)) 0 3 = 1
  /\ parsedRecords twoFieldsResult <= recordCount twoFieldsResult
  /\ parsedRecords twoFieldsResult
     + countFrom (deletedInBounds twoFields 97 6) 0 3
     + countFrom (fun i => negb (inBounds twoFields 97 6 i)) 0 3
     = recordCount twoFieldsResult.
Proof.
  split; [vm_compute; reflexivity |].
  split; [vm_compute; reflexivity |].
  split; [vm_compute; reflexivity |].
  apply (parsed_count_accounting twoFields twoFieldsResult).
  vm_compute; reflexivity.
Defined.

(** ** Deleted records *)

(** One turn of the record loop on a record flagged 0x2A: nothing is
    emitted or counted, and the loop goes on with the next index. *)
Lemma recordLoop_deleted buffer fs hl rl remaining i rows parsed :
  inBounds buffer hl rl i = true ->
  isDeleted buffer hl rl i = true ->
  recordLoop buffer fs hl rl (S remaining) i rows parsed
  = recordLoop buffer fs hl rl remaining (i + 1) rows parsed.
Proof.
  unfold inBounds, isDeleted. intros Hin Hdel.
  cbn [recordLoop]. fold (recordOffsetOf hl rl i).
  apply N.leb_le, N.ltb_ge in Hin. rewrite Hin.
  destruct (getUint8 buffer (recordOffsetOf hl rl i)) as [flag|e];
    [| discriminate].
  cbn [bind]. rewrite Hdel. reflexivity.
Qed.

(** C5: on success the data rows of the CSV are, in order, the rows of the
    declared records that are in bounds and not flagged 0x2A, and the parsed
    count is their number: a record flagged 0x2A gives no row and is not
    counted, and the records after it are still scanned. *)
Theorem deleted_records_skipped :
  forall buffer r,
    convertDbfToCsv buffer = Ok r ->
    exists dataRows,
      csv r = join CRLF (headerRow (fields r) :: dataRows)
      /\ Forall2
           (fun i row =>
              rowOf buffer (fields r) (headerLength r) (recordLength r) i
              = Ok row)
           (filter (live buffer (headerLength r) (recordLength r))
              (indices 0 (N.to_nat (recordCount r))))
           dataRows
      /\ parsedRecords r = N.of_nat (List.length dataRows)
      /\ (forall i,
            isDeleted buffer (headerLength r) (recordLength r) i = true ->
            ~ In i (filter (live buffer (headerLength r) (recordLength r))
                      (indices 0 (N.to_nat (recordCount r))))).
Proof.
  intros buffer r H.
  destruct (convert_Ok_rows buffer r H) as [rows [Hrows [Hcsv Hp]]].
  exists rows. repeat split; auto.
  - apply mapM_Ok, Hrows.
  - intros i Hdel Hin. apply filter_In in Hin. destruct Hin as [_ Hlive].
    unfold live in Hlive. rewrite Hdel in Hlive.
    rewrite andb_false_r in Hlive. discriminate.
Qed.

(** The second record of [twoFields] is flagged 0x2A. *)
Lemma deleted_records_skipped_witness :
  convertDbfToCsv twoFields = Ok twoFieldsResult
  /\ isDeleted twoFields 97 6 1 = true
  /\ filter (live twoFields 97 6) (indices 0 3) = [0]
  /\ exists dataRows,
       csv twoFieldsResult
       = join CRLF (headerRow (fields twoFieldsResult) :: dataRows)
       /\ Forall2
            (fun i row =>
               rowOf twoFields (fields twoFieldsResult)
                 (headerLength twoFieldsResult)
                 (recordLength twoFieldsResult) i
               = Ok row)
            (filter
               (live twoFields (headerLength twoFieldsResult)
                  (recordLength twoFieldsResult))
               (indices 0 (N.to_nat (recordCount twoFieldsResult))))
            dataRows
       /\ parsedRecords twoFieldsResult = N.of_nat (List.length dataRows)
       /\ (forall i,
             isDeleted twoFields (headerLength twoFieldsResult)
               (recordLength twoFieldsResult) i = true ->
             ~ In i
                 (filter
                    (live twoFields (headerLength twoFieldsResult)
                       (recordLength twoFieldsResult))
                    (indices 0 (N.to_nat (recordCount twoFieldsResult))))).
Proof.
  split; [vm_compute; reflexivity |].
  split; [vm_compute; reflexivity |].
  split; [vm_compute; reflexivity |].
  apply (deleted_records_skipped twoFields twoFieldsResult).
  vm_compute; reflexivity.
Defined.

(** ** Fields that pass the end of the buffer *)

Lemma fieldsFit_dec buffer fs hl rl j :
  fieldsFit buffer fs hl rl j \/ ~ fieldsFit buffer fs hl rl j.
Proof.
  unfold fieldsFit.
  destruct (N.le_gt_cases
              (recordOffsetOf hl rl j + 1 + totalLength fs)
              (byteLength buffer)); [left | right]; lia.
Qed.

(** Fields no wider than the record fit whenever the record does. *)
Lemma fieldsFit_narrow buffer fs hl rl j :
  totalLength fs + 1 <= rl ->
  inBounds buffer hl rl j = true ->
  fieldsFit buffer fs hl rl j.
Proof.
  unfold inBounds, fieldsFit. intros Hnarrow Hin.
  apply N.leb_le in Hin. lia.
Qed.

Lemma live_inBounds buffer hl rl j :
  live buffer hl rl j = true -> inBounds buffer hl rl j = true.
Proof.
  unfold live. intros H. apply andb_true_iff in H. tauto.
Qed.

(** C1 (amended): once the header, the descriptor table and the payload
    test are passed, the extends-beyond-file error is raised exactly when
    the fields of some declared, in-bounds, non-deleted record end past the
    end of the buffer; field lengths that sum to more than the record
    length minus one are necessary for that, and do not suffice. *)
Theorem field_overflow_error :
  forall buffer rc hl rl fs off,
    readPreamble buffer = Ok (rc, hl, rl) ->
    descriptorLoop buffer hl 32 [] = Ok (fs, off) ->
    fs <> [] ->
    hl + rl <= byteLength buffer ->
    (convertDbfToCsv buffer = Throw RecordBeyondFile
     <-> exists j,
           j < rc /\ live buffer hl rl j = true
           /\ ~ fieldsFit buffer fs hl rl j)
    /\ (convertDbfToCsv buffer = Throw RecordBeyondFile ->
        rl < totalLength fs + 1).
Proof.
  intros buffer rc hl rl fs off Hpre Hdesc Hfs Hroom.
  pose proof (readPreamble_Ok _ _ _ _ Hpre) as [_ [_ [Hrl _]]].
  rewrite (convert_scan _ _ _ _ _ _ Hpre Hdesc Hfs Hroom).
  set (liveIdx := filter (live buffer hl rl) (indices 0 (N.to_nat rc))).
  assert (Hfwd :
    (dataRows <- mapM (rowOf buffer fs hl rl) liveIdx ;;
     Ok {| csv := join CRLF (headerRow fs :: dataRows);
           recordCount := rc;
           parsedRecords := N.of_nat (List.length dataRows);
           headerLength := hl; recordLength := rl; fields := fs |})
    = Throw RecordBeyondFile ->
    exists j, j < rc /\ live buffer hl rl j = true
              /\ ~ fieldsFit buffer fs hl rl j).
  { intros H. apply bind_Throw in H.
    destruct H as [H | [rows [_ H]]]; [| discriminate].
    apply mapM_Throw in H. destruct H as [j [Hin Hj]].
    apply filter_In in Hin. destruct Hin as [Hidx Hlive].
    apply indices_In in Hidx. exists j.
    split; [lia |]. split; [exact Hlive |].
    intros Hfit. rewrite (rowOf_fits _ _ _ _ _ Hfit) in Hj. discriminate. }
  split; [split |].
  - exact Hfwd.
  - intros [j [Hj [Hlive Hover]]].
    rewrite (mapM_fails (rowOf buffer fs hl rl) liveIdx RecordBeyondFile).
    + reflexivity.
    + intros a Ha. apply filter_In in Ha. destruct Ha as [_ Ha].
      destruct (fieldsFit_dec buffer fs hl rl a) as [Hfit | Hno].
      * right. rewrite (rowOf_fits _ _ _ _ _ Hfit). eauto.
      * left. apply rowOf_overflow; auto using live_inBounds.
    + exists j. split.
      * apply filter_In. split; [apply indices_In; lia | exact Hlive].
      * apply rowOf_overflow; auto using live_inBounds.
  - intros H. destruct (Hfwd H) as [j [_ [Hlive Hover]]].
    destruct (N.le_gt_cases (totalLength fs + 1) rl) as [Hle | Hgt];
      [| lia].
    exfalso. apply Hover.
    apply fieldsFit_narrow; auto using live_inBounds.
Qed.

(** [wideFieldTruncated]: the field of record 1 ends at byte 81 of 77. *)
Lemma field_overflow_error_witness :
  readPreamble wideFieldTruncated = Ok (3, 65, 5)
  /\ descriptorLoop wideFieldTruncated 65 32 [] = Ok ([fieldNAME], 65)
  /\ 65 + 5 <= byteLength wideFieldTruncated
  /\ (convertDbfToCsv wideFieldTruncated = Throw RecordBeyondFile
      <-> exists j,
            j < 3 /\ live wideFieldTruncated 65 5 j = true
            /\ ~ fieldsFit wideFieldTruncated [fieldNAME] 65 5 j)
  /\ (convertDbfToCsv wideFieldTruncated = Throw RecordBeyondFile ->
      5 < totalLength [fieldNAME] + 1).
Proof.
  split; [vm_compute; reflexivity |].
  split; [vm_compute; reflexivity |].
  split; [vm_compute; discriminate |].
  apply (field_overflow_error wideFieldTruncated 3 65 5 [fieldNAME] 65).
  - vm_compute; reflexivity.
  - vm_compute; reflexivity.
  - discriminate.
  - vm_compute; discriminate.
Defined.

(** C1 as stated fails on [wideField]: its one field is 10 bytes wide in a
    record of 5 bytes, its one record is in bounds and not deleted, and the
    conversion succeeds, because the 10 bytes are inside the buffer. *)
Lemma field_wider_than_record_accepted :
  readPreamble wideField = Ok (1, 65, 5)
  /\ descriptorLoop wideField 65 32 [] = Ok ([fieldNAME], 65)
  /\ 5 - 1 < totalLength [fieldNAME]
  /\ live wideField 65 5 0 = true
  /\ convertDbfToCsv wideField
     = Ok {| csv := lit "NAME" ++ [CR; LF] ++ lit "HELLO";
             recordCount := 1;
             parsedRecords := 1;
             headerLength := 65;
             recordLength := 5;
             fields := [fieldNAME] |}
  /\ convertDbfToCsv wideField <> Throw RecordBeyondFile.
Proof.
  repeat split; try (vm_compute; reflexivity).
  vm_compute. discriminate.
Qed.

(** ** A truncated tail *)

Lemma live_before buffer hl rl rc i :
  0 < rl ->
  i < rc ->
  inBounds buffer hl rl i = false ->
  filter (live buffer hl rl) (indices 0 (N.to_nat rc))
  = filter (live buffer hl rl) (indices 0 (N.to_nat i)).
Proof.
  intros Hrl Hi Hout.
  replace (N.to_nat rc)
    with (N.to_nat i + (N.to_nat rc - N.to_nat i))%nat by lia.
  rewrite indices_app, filter_app.
  rewrite N2Nat.id, N.add_0_l.
  rewrite (no_live_after buffer hl rl Hrl i _ Hout).
  apply app_nil_r.
Qed.

(** C7 (amended): after the three validations, a declared record whose span
    passes the end of the buffer raises no error; when the fields of every
    in-bounds, non-deleted record before it end inside the buffer, the
    conversion succeeds, and its rows and its parsed count are those of the
    in-bounds, non-deleted records before that index. *)
Theorem truncated_tail_tolerated :
  forall buffer rc hl rl fs off i,
    readPreamble buffer = Ok (rc, hl, rl) ->
    descriptorLoop buffer hl 32 [] = Ok (fs, off) ->
    fs <> [] ->
    hl + rl <= byteLength buffer ->
    i < rc ->
    inBounds buffer hl rl i = false ->
    (forall j, j < i -> live buffer hl rl j = true ->
               fieldsFit buffer fs hl rl j) ->
    exists r,
      convertDbfToCsv buffer = Ok r
      /\ parsedRecords r
         = N.of_nat
             (List.length
                (filter (live buffer hl rl) (indices 0 (N.to_nat i))))
      /\ csv r
         = join CRLF
             (headerRow fs
              :: map (fun j =>
                        rowText
                          (valuesOf buffer fs (recordOffsetOf hl rl j + 1)))
                   (filter (live buffer hl rl) (indices 0 (N.to_nat i)))).
Proof.
  intros buffer rc hl rl fs off i Hpre Hdesc Hfs Hroom Hi Hout Hfit.
  pose proof (readPreamble_Ok _ _ _ _ Hpre) as [_ [_ [Hrl _]]].
  rewrite (convert_scan _ _ _ _ _ _ Hpre Hdesc Hfs Hroom).
  rewrite (live_before buffer hl rl rc i Hrl Hi Hout).
  rewrite (mapM_all (rowOf buffer fs hl rl)
             (fun j => rowText (valuesOf buffer fs (recordOffsetOf hl rl j + 1)))).
  - cbn [bind]. eexists. split; [reflexivity |]. cbn.
    rewrite length_map. split; reflexivity.
  - intros j Hj. apply filter_In in Hj. destruct Hj as [Hidx Hlive].
    apply indices_In in Hidx. apply rowOf_fits. apply Hfit; [lia | exact Hlive].
Qed.

(** [twoFields]: record 2 is cut short after two bytes. *)
Lemma truncated_tail_tolerated_witness :
  readPreamble twoFields = Ok (3, 97, 6)
  /\ descriptorLoop twoFields 97 32 [] = Ok ([fieldID; fieldTwo], 97)
  /\ 97 + 6 <= byteLength twoFields
  /\ inBounds twoFields 97 6 2 = false
  /\ exists r,
       convertDbfToCsv twoFields = Ok r
       /\ parsedRecords r
          = N.of_nat
              (List.length
                 (filter (live twoFields 97 6) (indices 0 (N.to_nat 2))))
       /\ csv r
          = join CRLF
              (headerRow [fieldID; fieldTwo]
               :: map (fun j =>
                         rowText
                           (valuesOf twoFields [fieldID; fieldTwo]
                              (recordOffsetOf 97 6 j + 1)))
                    (filter (live twoFields 97 6) (indices 0 (N.to_nat 2)))).
Proof.
  split; [vm_compute; reflexivity |].
  split; [vm_compute; reflexivity |].
  split; [vm_compute; discriminate |].
  split; [vm_compute; reflexivity |].
  apply (truncated_tail_tolerated twoFields 3 97 6 [fieldID; fieldTwo] 97 2).
  - vm_compute; reflexivity.
  - vm_compute; reflexivity.
  - discriminate.
  - vm_compute; discriminate.
  - reflexivity.
  - vm_compute; reflexivity.
  - intros j Hj _. unfold fieldsFit, recordOffsetOf.
    change (totalLength [fieldID; fieldTwo]) with 5.
    change (byteLength twoFields) with 111. lia.
Defined.

(** C7 as stated fails on [wideFieldTruncated]: the three validations pass,
    declared record 2 is cut short, and the conversion does not return: the
    field of record 1 ends past the end of the buffer. *)
Lemma truncated_tail_after_overflow :
  readPreamble wideFieldTruncated = Ok (3, 65, 5)
  /\ descriptorLoop wideFieldTruncated 65 32 [] = Ok ([fieldNAME], 65)
  /\ 65 + 5 <= byteLength wideFieldTruncated
  /\ inBounds wideFieldTruncated 65 5 2 = false
  /\ convertDbfToCsv wideFieldTruncated = Throw RecordBeyondFile
  /\ ~ (exists r, convertDbfToCsv wideFieldTruncated = Ok r).
Proof.
  split; [vm_compute; reflexivity |].
  split; [vm_compute; reflexivity |].
  split; [vm_compute; discriminate |].
  split; [vm_compute; reflexivity |].
  split; [vm_compute; reflexivity |].
  intros [r H]. vm_compute in H. discriminate.
Qed.

(** ** Reading the CSV text back *)

Section Reader.

Import Rfc4180.

Variables (cell : jsstring) (row : list jsstring).

Lemma parseFrom_open text :
  parseFrom false cell row (DQUOTE :: text) = parseFrom true cell row text.
Proof. reflexivity. Qed.

Lemma parseFrom_comma text :
  parseFrom false cell row (COMMA :: text)
  = parseFrom false [] (row ++ [cell]) text.
Proof. reflexivity. Qed.

Lemma parseFrom_crlf text :
  parseFrom false cell row (CR :: LF :: text)
  = (row ++ [cell]) :: parseFrom false [] [] text.
Proof. reflexivity. Qed.

Lemma parseFrom_bare c text :
  c <> DQUOTE -> c <> COMMA -> c <> CR ->
  parseFrom false cell row (c :: text)
  = parseFrom false (cell ++ [c]) row text.
Proof.
  intros Hq Hc Hr. cbn [parseFrom].
  apply N.eqb_neq in Hq, Hc, Hr. rewrite Hq, Hc, Hr. reflexivity.
Qed.

Lemma parseFrom_escaped_quote text :
  parseFrom true cell row (DQUOTE :: DQUOTE :: text)
  = parseFrom true (cell ++ [DQUOTE]) row text.
Proof. reflexivity. Qed.

Lemma parseFrom_close text :
  startsWith DQUOTE text = false ->
  parseFrom true cell row (DQUOTE :: text) = parseFrom false cell row text.
Proof.
  intros H. cbn [parseFrom]. change (DQUOTE =? DQUOTE) with true. cbn iota.
  destruct text as [|d text']; [reflexivity |].
  cbn [startsWith] in H. rewrite H. reflexivity.
Qed.

Lemma parseFrom_inside c text :
  c <> DQUOTE ->
  parseFrom true cell row (c :: text)
  = parseFrom true (cell ++ [c]) row text.
Proof.
  intros Hq. cbn [parseFrom]. apply N.eqb_neq in Hq. rewrite Hq.
  reflexivity.
Qed.

End Reader.

Import Rfc4180.

Lemma parse_bare value :
  forall cell row rest,
    (forall c, In c value -> c <> DQUOTE /\ c <> COMMA /\ c <> CR) ->
    parseFrom false cell row (value ++ rest)
    = parseFrom false (cell ++ value) row rest.
Proof.
  induction value as [|c value IH]; intros cell row rest Hbare.
  - rewrite app_nil_r. reflexivity.
  - destruct (Hbare c) as [Hq [Hc Hr]]; [left; reflexivity |].
    cbn [app]. rewrite parseFrom_bare by assumption.
    rewrite IH by (intros d Hd; apply Hbare; right; exact Hd).
    rewrite <- app_assoc. reflexivity.
Qed.

Lemma parse_quoted value :
  forall cell row rest,
    startsWith DQUOTE rest = false ->
    parseFrom true cell row (doubled value ++ DQUOTE :: rest)
    = parseFrom false (cell ++ value) row rest.
Proof.
  induction value as [|c value IH]; intros cell row rest Hrest.
  - cbn [doubled flat_map app]. rewrite app_nil_r.
    apply parseFrom_close, Hrest.
  - unfold doubled. cbn [flat_map]. fold (doubled value).
    destruct (c =? DQUOTE) eqn:E.
    + apply N.eqb_eq in E. subst c. cbn [app].
      rewrite parseFrom_escaped_quote, IH by exact Hrest.
      rewrite <- app_assoc. reflexivity.
    + apply N.eqb_neq in E. cbn [app].
      rewrite parseFrom_inside, IH by assumption.
      rewrite <- app_assoc. reflexivity.
Qed.

Lemma special_dec value :
  (exists c, In c value /\ special c)
  \/ ~ (exists c, In c value /\ special c).
Proof.
  destruct (includes value COMMA || includes value DQUOTE
            || includes value LF || includes value CR) eqn:E.
  - left. apply needsWrapper_special, E.
  - right. intros H. apply needsWrapper_special in H. congruence.
Qed.

(** Reading a cell that [escapeCsv] wrote gives the value back. *)
Lemma parse_cell value cell row rest :
  startsWith DQUOTE rest = false ->
  parseFrom false cell row (escapeCsv value ++ rest)
  = parseFrom false (cell ++ value) row rest.
Proof.
  intros Hrest. destruct (special_dec value) as [Hs | Hs].
  - rewrite (escapeCsv_special _ Hs).
    cbn [app]. rewrite parseFrom_open, <- app_assoc. cbn [app].
    apply parse_quoted, Hrest.
  - rewrite (escapeCsv_plain _ Hs). apply parse_bare.
    intros c Hc.
    repeat split; intros E; apply Hs; exists c; unfold special; auto.
Qed.

Lemma rowText_cons v w vs :
  rowText (v :: w :: vs) = escapeCsv v ++ COMMA :: rowText (w :: vs).
Proof. reflexivity. Qed.

(** Reading a row of cells, followed by a text [rest] at which the reader
    closes the row and goes on to give the rows [more]. *)
Lemma parse_row rest more :
  startsWith DQUOTE rest = false ->
  (forall cell row, parseFrom false cell row rest = (row ++ [cell]) :: more) ->
  forall values v row,
    parseFrom false [] row (rowText (v :: values) ++ rest)
    = (row ++ v :: values) :: more.
Proof.
  intros Hrest Hclose.
  induction values as [|w values IH]; intros v row.
  - unfold rowText. cbn [map join].
    rewrite parse_cell by exact Hrest. apply Hclose.
  - rewrite rowText_cons, <- app_assoc. cbn [app].
    rewrite parse_cell by reflexivity.
    cbn [app]. rewrite parseFrom_comma, IH, <- app_assoc. reflexivity.
Qed.

Lemma join_CRLF_cons r r' rows :
  join CRLF (r :: r' :: rows) = r ++ CR :: LF :: join CRLF (r' :: rows).
Proof. reflexivity. Qed.

(** Reading a table that was written row by row gives the table back. *)
Lemma parse_table table :
  forall values,
    Forall (fun r => r <> []) (values :: table) ->
    parse (join CRLF (map rowText (values :: table))) = values :: table.
Proof.
  unfold parse.
  induction table as [|r table IH]; intros values Hne.
  - inv Hne. destruct values as [|v values]; [congruence |].
    cbn [map join].
    rewrite <- (app_nil_r (rowText (v :: values))).
    apply (parse_row [] []); reflexivity.
  - inv Hne. destruct values as [|v values]; [congruence |].
    cbn [map]. rewrite join_CRLF_cons.
    rewrite (parse_row (CR :: LF :: join CRLF (rowText r :: map rowText table))
               (parseFrom false [] [] (join CRLF (map rowText (r :: table))))).
    + cbn [app]. f_equal. apply IH. assumption.
    + reflexivity.
    + intros cell row. apply parseFrom_crlf.
Qed.

(** ** The shape of the CSV text *)

Lemma mapM_Ok_map {A B : Type} (f : A -> result B) (g : A -> B) l bs :
  mapM f l = Ok bs ->
  (forall a b, In a l -> f a = Ok b -> b = g a) ->
  bs = map g l.
Proof.
  intros H. apply mapM_Ok in H.
  induction H as [|a b l bs Hab _ IH]; intros Hg; [reflexivity |].
  cbn [map]. f_equal.
  - apply Hg; [left; reflexivity | exact Hab].
  - apply IH. intros a' b' Hin. apply Hg. right. exact Hin.
Qed.

(** On success every decoded record had its fields inside the buffer, so
    the CSV text is the table of the field names and of the values of the
    live records, written row by row. *)
Lemma convert_Ok_table buffer r :
  convertDbfToCsv buffer = Ok r ->
  csv r
  = join CRLF
      (map rowText
         (map field_name (fields r)
          :: map (fun j =>
                    valuesOf buffer (fields r)
                      (recordOffsetOf (headerLength r) (recordLength r) j + 1))
               (filter (live buffer (headerLength r) (recordLength r))
                  (indices 0 (N.to_nat (recordCount r)))))).
Proof.
  intros H.
  destruct (convert_Ok buffer r H) as [off [Hpre _]].
  pose proof (readPreamble_Ok _ _ _ _ Hpre) as [_ [_ [Hrl _]]].
  destruct (convert_Ok_rows buffer r H) as [rows [Hrows [Hcsv _]]].
  rewrite Hcsv. cbn [map]. f_equal. f_equal.
  - unfold headerRow, rowText. rewrite map_map. reflexivity.
  - rewrite map_map. apply (mapM_Ok_map _ _ _ _ Hrows).
    intros j row Hin Hj. apply filter_In in Hin. destruct Hin as [_ Hlive].
    destruct (fieldsFit_dec buffer (fields r) (headerLength r)
                (recordLength r) j) as [Hfit | Hno].
    + rewrite (rowOf_fits _ _ _ _ _ Hfit) in Hj. congruence.
    + rewrite rowOf_overflow in Hj; auto using live_inBounds.
      discriminate.
Qed.

(** ** Which reads can leave the buffer *)

Lemma readPreamble_Throw buffer e :
  readPreamble buffer = Throw e -> documented e = true.
Proof.
  unfold readPreamble.
  destruct (byteLength buffer <? 32) eqn:E32; [intros H; inv H; reflexivity |].
  apply N.ltb_ge in E32.
  unfold getUint32, getUint16.
  repeat match goal with
  | |- context [getUint8 buffer ?o] =>
      let b := fresh "b" in
      let Hb := fresh "Hb" in
      destruct (getUint8_inside buffer o) as [b Hb]; [lia |];
      rewrite Hb; cbn [bind]
  end.
  match goal with
  | |- (if ?c then _ else _) = _ -> _ => destruct c
  end; [intros H; inv H; reflexivity |].
  match goal with
  | |- (if ?c then _ else _) = _ -> _ => destruct c
  end; [intros H; inv H; reflexivity | discriminate].
Qed.

Lemma rowOf_live_Throw buffer fs hl rl j e :
  0 < rl ->
  live buffer hl rl j = true ->
  rowOf buffer fs hl rl j = Throw e ->
  e = RecordBeyondFile.
Proof.
  intros Hrl Hlive H.
  destruct (fieldsFit_dec buffer fs hl rl j) as [Hfit | Hno].
  - rewrite (rowOf_fits _ _ _ _ _ Hfit) in H. discriminate.
  - rewrite rowOf_overflow in H; auto using live_inBounds. congruence.
Qed.

Lemma readDescriptor_Throw buffer descriptorOffset ordinal e :
  readDescriptor buffer descriptorOffset ordinal = Throw e -> e = RangeError.
Proof.
  unfold readDescriptor, Uint8Array.
  destruct (descriptorOffset + 11 <=? byteLength buffer);
    cbn [bind]; [| congruence].
  repeat match goal with
  | |- context [getUint8 buffer ?o] =>
      let E := fresh "E" in
      destruct (getUint8 buffer o) eqn:E; cbn [bind];
      [| apply getUint8_Throw in E; congruence]
  end.
  discriminate.
Qed.

Lemma descriptorLoop_Throw buffer hl descriptorOffset acc e :
  descriptorLoop buffer hl descriptorOffset acc = Throw e -> e = RangeError.
Proof.
  funelim (descriptorLoop buffer hl descriptorOffset acc);
    intros Hres; try discriminate.
  - inv Hres. eapply getUint8_Throw; eassumption.
  - auto.
  - inv Hres. eapply readDescriptor_Throw; eassumption.
Qed.

(** Every error of the converter is one of the six that it words itself,
    but for a [RangeError] of the descriptor loop: the reads of the preamble
    and of the records are all inside the buffer. *)
Lemma convert_Throw buffer e :
  convertDbfToCsv buffer = Throw e ->
  documented e = true
  \/ e = RangeError
     /\ exists rc hl rl,
          readPreamble buffer = Ok (rc, hl, rl)
          /\ descriptorLoop buffer hl 32 [] = Throw RangeError.
Proof.
  intros H.
  destruct (readPreamble buffer) as [[[rc hl] rl]|e'] eqn:Hpre.
  - destruct (descriptorLoop buffer hl 32 []) as [[fs off]|e'] eqn:Hdesc.
    + left.
      destruct fs as [|f fs'].
      { unfold convertDbfToCsv in H. rewrite Hpre in H. cbn [bind] in H.
        rewrite Hdesc in H. cbn in H. inv H. reflexivity. }
      destruct (N.le_gt_cases (hl + rl) (byteLength buffer)) as [Hroom | Hno].
      * pose proof (readPreamble_Ok _ _ _ _ Hpre) as [_ [_ [Hrl _]]].
        rewrite (convert_scan _ _ _ _ _ _ Hpre Hdesc) in H;
          [| discriminate | exact Hroom].
        apply bind_Throw in H. destruct H as [H | [rows [_ H]]];
          [| discriminate].
        apply mapM_Throw in H. destruct H as [j [Hin Hj]].
        apply filter_In in Hin. destruct Hin as [_ Hlive].
        rewrite (rowOf_live_Throw _ _ _ _ _ _ Hrl Hlive Hj). reflexivity.
      * rewrite (convert_no_room buffer rc hl rl (f :: fs') off Hpre Hdesc)
          in H; [| discriminate | exact Hno].
        inv H. reflexivity.
    + right.
      unfold convertDbfToCsv in H. rewrite Hpre in H. cbn [bind] in H.
      rewrite Hdesc in H. cbn in H. inv H.
      pose proof (descriptorLoop_Throw _ _ _ _ _ Hdesc) as ->.
      split; [reflexivity |]. exists rc, hl, rl. auto.
  - left. apply (readPreamble_Throw buffer).
    unfold convertDbfToCsv in H. rewrite Hpre in H. cbn in H. congruence.
Qed.

(** C2: the conversion of [shortDescriptor] (33 bytes, header length 33,
    byte 32 not the terminator) leaves through the [RangeError] of the
    11-byte window on the descriptor name, which is none of the six worded
    errors. *)
Theorem descriptor_window_out_of_range :
  byteLength shortDescriptor = 33
  /\ readPreamble shortDescriptor = Ok (0, 33, 1)
  /\ getUint8 shortDescriptor 32 = Ok 0
  /\ Uint8Array shortDescriptor 32 11 = Throw RangeError
  /\ convertDbfToCsv shortDescriptor = Throw RangeError
  /\ documented RangeError = false.
Proof.
  repeat split; vm_compute; reflexivity.
Qed.

(** * Further properties of the converter *)

(** ** The outcome, phase by phase *)

Lemma convert_phases buffer :
  convertDbfToCsv buffer
  = match readPreamble buffer with
    | Throw e => Throw e
    | Ok (rc, hl, rl) =>
        match descriptorLoop buffer hl 32 [] with
        | Throw e => Throw e
        | Ok ([], _) => Throw NoFieldsDefined
        | Ok (fs, _) =>
            if byteLength buffer <? hl + rl then Throw PayloadTruncated
            else
              dataRows <-
                mapM (rowOf buffer fs hl rl) (liveIndices buffer rc hl rl) ;;
              Ok {| csv := join CRLF (headerRow fs :: dataRows);
                    recordCount := rc;
                    parsedRecords := N.of_nat (List.length dataRows);
                    headerLength := hl;
                    recordLength := rl;
                    fields := fs |}
        end
    end.
Proof.
  destruct (readPreamble buffer) as [[[rc hl] rl]|e] eqn:Hpre.
  - destruct (descriptorLoop buffer hl 32 []) as [[fs off]|e] eqn:Hdesc.
    + destruct fs as [|f fs'].
      * unfold convertDbfToCsv. rewrite Hpre. cbn [bind]. rewrite Hdesc.
        reflexivity.
      * destruct (byteLength buffer <? hl + rl) eqn:Eroom.
        -- apply N.ltb_lt in Eroom.
           apply (convert_no_room buffer rc hl rl (f :: fs') off);
             auto; discriminate.
        -- apply N.ltb_ge in Eroom.
           apply (convert_scan buffer rc hl rl (f :: fs') off);
             auto; discriminate.
    + unfold convertDbfToCsv. rewrite Hpre. cbn [bind]. rewrite Hdesc.
      reflexivity.
  - unfold convertDbfToCsv. rewrite Hpre. reflexivity.
Qed.

Lemma header_numbers buffer :
  32 <= byteLength buffer ->
  exists rc hl rl,
    getUint32 buffer 4 = Ok rc
    /\ getUint16 buffer 8 = Ok hl
    /\ getUint16 buffer 10 = Ok rl
    /\ rc < 4294967296 /\ hl < 65536 /\ rl < 65536
    /\ readPreamble buffer
       = (if (hl =? 0) || (rl =? 0) then Throw MalformedHeader
          else if byteLength buffer <? hl then Throw HeaderLargerThanFile
          else Ok (rc, hl, rl)).
Proof.
  intros Hlen.
  assert (Hbyte : forall o, o < 32 ->
            exists b, getUint8 buffer o = Ok b /\ b <= 255).
  { intros o Ho. unfold getUint8.
    destruct (nth_error buffer (N.to_nat o)) as [b|] eqn:E.
    - exists (Byte.to_N b). split; [reflexivity | apply Byte.to_N_bounded].
    - apply nth_error_None in E. unfold byteLength in Hlen. lia. }
  unfold readPreamble, getUint32, getUint16.
  assert (E32 : (byteLength buffer <? 32) = false) by (apply N.ltb_ge; exact Hlen).
  rewrite E32.
  destruct (Hbyte 4) as [b4 [H4 B4]]; [lia |].
  destruct (Hbyte (4 + 1)) as [b5 [H5 B5]]; [lia |].
  destruct (Hbyte (4 + 2)) as [b6 [H6 B6]]; [lia |].
  destruct (Hbyte (4 + 3)) as [b7 [H7 B7]]; [lia |].
  destruct (Hbyte 8) as [b8 [H8 B8]]; [lia |].
  destruct (Hbyte (8 + 1)) as [b9 [H9 B9]]; [lia |].
  destruct (Hbyte 10) as [b10 [H10 B10]]; [lia |].
  destruct (Hbyte (10 + 1)) as [b11 [H11 B11]]; [lia |].
  rewrite H4, H5, H6, H7, H8, H9, H10, H11. cbn [bind].
  eexists. eexists. eexists.
  repeat split; try reflexivity; lia.
Qed.

Lemma readPreamble_small buffer :
  byteLength buffer < 32 -> readPreamble buffer = Throw BufferTooSmall.
Proof.
  intros H. unfold readPreamble. apply N.ltb_lt in H. rewrite H. reflexivity.
Qed.

(** Where an error of the converter comes from. *)
Lemma convert_Throw_inv buffer e :
  convertDbfToCsv buffer = Throw e ->
  readPreamble buffer = Throw e
  \/ exists rc hl rl,
       readPreamble buffer = Ok (rc, hl, rl)
       /\ ((descriptorLoop buffer hl 32 [] = Throw e /\ e = RangeError)
           \/ (exists off,
                 descriptorLoop buffer hl 32 [] = Ok ([], off)
                 /\ e = NoFieldsDefined)
           \/ (exists fs off,
                 descriptorLoop buffer hl 32 [] = Ok (fs, off)
                 /\ fs <> []
                 /\ ((byteLength buffer < hl + rl /\ e = PayloadTruncated)
                     \/ (hl + rl <= byteLength buffer
                         /\ e = RecordBeyondFile)))).
Proof.
  rewrite convert_phases.
  destruct (readPreamble buffer) as [[[rc hl] rl]|e'] eqn:Hpre;
    [| intros H; left; congruence].
  intros H. right. exists rc, hl, rl. split; [reflexivity |].
  destruct (descriptorLoop buffer hl 32 []) as [[fs off]|e'] eqn:Hdesc.
  - destruct fs as [|f fs'].
    + right. left. exists off. split; [reflexivity | congruence].
    + right. right. exists (f :: fs'), off.
      split; [reflexivity |]. split; [discriminate |].
      destruct (byteLength buffer <? hl + rl) eqn:Eroom.
      * left. apply N.ltb_lt in Eroom. split; [exact Eroom | congruence].
      * right. apply N.ltb_ge in Eroom. split; [exact Eroom |].
        pose proof (readPreamble_Ok _ _ _ _ Hpre) as [_ [_ [Hrl _]]].
        apply bind_Throw in H. destruct H as [H | [rows [_ H]]];
          [| discriminate].
        apply mapM_Throw in H. destruct H as [j [Hin Hj]].
        apply filter_In in Hin. destruct Hin as [_ Hlive].
        exact (rowOf_live_Throw _ _ _ _ _ _ Hrl Hlive Hj).
  - left. inv H. split; [reflexivity |].
    exact (descriptorLoop_Throw _ _ _ _ _ Hdesc).
Qed.

Lemma readPreamble_Throw_inv buffer e :
  readPreamble buffer = Throw e ->
  (e = BufferTooSmall /\ byteLength buffer < 32)
  \/ (32 <= byteLength buffer
      /\ exists hl rl,
           getUint16 buffer 8 = Ok hl /\ getUint16 buffer 10 = Ok rl
           /\ ((e = MalformedHeader /\ (hl = 0 \/ rl = 0))
               \/ (e = HeaderLargerThanFile
                   /\ hl <> 0 /\ rl <> 0 /\ byteLength buffer < hl))).
Proof.
  intros H.
  destruct (N.lt_ge_cases (byteLength buffer) 32) as [Hsmall | Hlen].
  - left. rewrite (readPreamble_small _ Hsmall) in H. inv H. auto.
  - right. split; [exact Hlen |].
    destruct (header_numbers buffer Hlen)
      as [rc [hl [rl [_ [Hhl [Hrl [_ [_ [_ Heq]]]]]]]]].
    exists hl, rl. split; [exact Hhl |]. split; [exact Hrl |].
    rewrite Heq in H.
    destruct ((hl =? 0) || (rl =? 0)) eqn:Ez.
    + left. inv H. split; [reflexivity |].
      apply orb_true_iff in Ez. rewrite !N.eqb_eq in Ez. exact Ez.
    + apply orb_false_iff in Ez. rewrite !N.eqb_neq in Ez.
      destruct (byteLength buffer <? hl) eqn:Eh; [| discriminate].
      right. inv H. apply N.ltb_lt in Eh. tauto.
Qed.

(** X1: the too-small error is raised exactly for the buffers of fewer
    than 32 bytes. *)
Theorem too_small_iff :
  forall buffer,
    convertDbfToCsv buffer = Throw BufferTooSmall
    <-> byteLength buffer < 32.
Proof.
  intros buffer. split.
  - intros H. apply convert_Throw_inv in H.
    destruct H as [H | [rc [hl [rl [_ H]]]]].
    + apply readPreamble_Throw_inv in H.
      destruct H as [[_ H] | [_ [hl [rl [_ [_ [[H _] | [H _]]]]]]]];
        [exact H | discriminate | discriminate].
    + destruct H as [[_ H] | [[off [_ H]] | [fs [off [_ [_ [[_ H] | [_ H]]]]]]]];
        discriminate.
  - intros H. rewrite convert_phases, (readPreamble_small _ H). reflexivity.
Qed.

(** X2: for a buffer of at least 32 bytes, the malformed-header error is
    raised exactly when the header length or the record length is zero, and
    the header-larger-than-file error exactly when both are nonzero and the
    header length exceeds the buffer length. *)
Theorem header_errors :
  forall buffer hl rl,
    32 <= byteLength buffer ->
    getUint16 buffer 8 = Ok hl ->
    getUint16 buffer 10 = Ok rl ->
    (convertDbfToCsv buffer = Throw MalformedHeader <-> hl = 0 \/ rl = 0)
    /\ (convertDbfToCsv buffer = Throw HeaderLargerThanFile
        <-> hl <> 0 /\ rl <> 0 /\ byteLength buffer < hl).
Proof.
  intros buffer hl rl Hlen Hhl Hrl.
  destruct (header_numbers buffer Hlen)
    as [rc [hl' [rl' [_ [Hhl' [Hrl' [_ [_ [_ Heq]]]]]]]]].
  assert (hl' = hl) by congruence. assert (rl' = rl) by congruence.
  subst hl' rl'.
  assert (Hinv : forall e,
            convertDbfToCsv buffer = Throw e ->
            e = MalformedHeader \/ e = HeaderLargerThanFile ->
            readPreamble buffer = Throw e).
  { intros e H He. apply convert_Throw_inv in H.
    destruct H as [H | [rc' [hl' [rl' [_ H]]]]]; [exact H |].
    destruct H as [[_ H] | [[off [_ H]] | [fs [off [_ [_ [[_ H] | [_ H]]]]]]]];
      subst e; destruct He; discriminate. }
  split; split.
  - intros H. apply Hinv in H; [| auto]. rewrite Heq in H.
    destruct ((hl =? 0) || (rl =? 0)) eqn:Ez.
    + apply orb_true_iff in Ez. rewrite !N.eqb_eq in Ez. exact Ez.
    + destruct (byteLength buffer <? hl); discriminate.
  - intros Hz. rewrite convert_phases, Heq.
    assert (Ez : (hl =? 0) || (rl =? 0) = true).
    { apply orb_true_iff. rewrite !N.eqb_eq. exact Hz. }
    rewrite Ez. reflexivity.
  - intros H. apply Hinv in H; [| auto]. rewrite Heq in H.
    destruct ((hl =? 0) || (rl =? 0)) eqn:Ez; [discriminate |].
    apply orb_false_iff in Ez. rewrite !N.eqb_neq in Ez.
    destruct (byteLength buffer <? hl) eqn:Eh; [| discriminate].
    apply N.ltb_lt in Eh. tauto.
  - intros [Hh [Hr Hlt]]. rewrite convert_phases, Heq.
    assert (Ez : (hl =? 0) || (rl =? 0) = false).
    { apply orb_false_iff. rewrite !N.eqb_neq. auto. }
    apply N.ltb_lt in Hlt. rewrite Ez, Hlt. reflexivity.
Qed.

Lemma header_errors_witness :
  32 <= byteLength zeroHeader
  /\ getUint16 zeroHeader 8 = Ok 0
  /\ getUint16 zeroHeader 10 = Ok 5
  /\ (convertDbfToCsv zeroHeader = Throw MalformedHeader <-> 0 = 0 \/ 5 = 0)
  /\ (convertDbfToCsv zeroHeader = Throw HeaderLargerThanFile
      <-> 0 <> 0 /\ 5 <> 0 /\ byteLength zeroHeader < 0).
Proof.
  split; [vm_compute; discriminate |].
  split; [reflexivity |].
  split; [reflexivity |].
  apply (header_errors zeroHeader 0 5).
  - vm_compute; discriminate.
  - reflexivity.
  - reflexivity.
Defined.

(** ** The descriptor loop, step by step *)

Lemma descriptorLoop_step buffer hl descriptorOffset acc :
  descriptorLoop buffer hl descriptorOffset acc
  = if descriptorOffset <? hl then
      match getUint8 buffer descriptorOffset with
      | Throw e => Throw e
      | Ok marker =>
          if marker =? 13 then Ok (acc, descriptorOffset + 1)
          else
            match readDescriptor buffer descriptorOffset
                    (N.of_nat (List.length acc) + 1) with
            | Throw e => Throw e
            | Ok field =>
                descriptorLoop buffer hl (descriptorOffset + 32)
                  (acc ++ [field])
            end
      end
    else Ok (acc, descriptorOffset).
Proof.
  funelim (descriptorLoop buffer hl descriptorOffset acc);
    try clear Heqcall;
    repeat match goal with
    | E : (_ <? _) = _ |- _ => rewrite E
    | E : getUint8 _ _ = _ |- _ => rewrite E
    | E : (_ =? _) = _ |- _ => rewrite E
    | E : readDescriptor _ _ _ = _ |- _ => rewrite E
    end; reflexivity.
Qed.

Lemma descriptorLoop_prefix buffer hl descriptorOffset acc :
  forall fs off,
    descriptorLoop buffer hl descriptorOffset acc = Ok (fs, off) ->
    exists rest, fs = acc ++ rest.
Proof.
  funelim (descriptorLoop buffer hl descriptorOffset acc);
    intros fs off Hres; try discriminate.
  - inv Hres. exists []. rewrite app_nil_r. reflexivity.
  - inv Hres. exists []. rewrite app_nil_r. reflexivity.
  - match goal with
    | IH : forall fs off, _ -> exists rest, fs = _ ++ rest |- _ =>
        destruct (IH fs off Hres) as [rest Hrest]
    end.
    rewrite <- app_assoc in Hrest. eauto.
Qed.

Lemma readDescriptor_inside buffer descriptorOffset ordinal :
  descriptorOffset + 18 <= byteLength buffer ->
  exists field, readDescriptor buffer descriptorOffset ordinal = Ok field.
Proof.
  intros H. unfold readDescriptor.
  rewrite Uint8Array_inside by lia. cbn [bind].
  destruct (getUint8_inside buffer (descriptorOffset + 11)) as [t Ht]; [lia |].
  destruct (getUint8_inside buffer (descriptorOffset + 16)) as [l Hl]; [lia |].
  destruct (getUint8_inside buffer (descriptorOffset + 17)) as [d Hd]; [lia |].
  rewrite Ht, Hl, Hd. cbn [bind]. eauto.
Qed.

Lemma readDescriptor_Ok buffer descriptorOffset ordinal field :
  readDescriptor buffer descriptorOffset ordinal = Ok field ->
  descriptorOffset + 18 <= byteLength buffer.
Proof.
  unfold readDescriptor. intros H.
  apply bind_Ok in H. destruct H as [nameBytes [_ H]].
  apply bind_Ok in H. destruct H as [t [_ H]].
  apply bind_Ok in H. destruct H as [l [_ H]].
  apply bind_Ok in H. destruct H as [d [Hd _]].
  apply getUint8_Ok in Hd. lia.
Qed.

(** The table up to its first terminator: one field per slot before it. *)
Lemma descriptorLoop_terminated buffer hl :
  hl <= byteLength buffer ->
  forall n descriptorOffset acc,
    (forall i, (i < n)%nat ->
               getUint8 buffer (descriptorOffset + 32 * N.of_nat i) <> Ok 13) ->
    getUint8 buffer (descriptorOffset + 32 * N.of_nat n) = Ok 13 ->
    descriptorOffset + 32 * N.of_nat n < hl ->
    exists rest,
      descriptorLoop buffer hl descriptorOffset acc
      = Ok (acc ++ rest, descriptorOffset + 32 * N.of_nat n + 1)
      /\ List.length rest = n.
Proof.
  intros Hhl. induction n as [|n IH]; intros off acc Hbefore Hterm Hin.
  - rewrite descriptorLoop_step.
    replace (off + 32 * N.of_nat 0) with off in * by lia.
    apply N.ltb_lt in Hin. rewrite Hin, Hterm. cbn.
    exists []. rewrite app_nil_r. auto.
  - rewrite descriptorLoop_step.
    assert (Hlt : (off <? hl) = true) by (apply N.ltb_lt; lia).
    rewrite Hlt.
    destruct (getUint8_inside buffer off) as [marker Hmarker]; [lia |].
    rewrite Hmarker.
    assert (Hm : (marker =? 13) = false).
    { apply N.eqb_neq. intros ->. apply (Hbefore 0%nat); [lia |].
      replace (off + 32 * N.of_nat 0) with off by lia. exact Hmarker. }
    rewrite Hm.
    destruct (readDescriptor_inside buffer off
                (N.of_nat (List.length acc) + 1)) as [field Hfield]; [lia |].
    rewrite Hfield.
    destruct (IH (off + 32) (acc ++ [field])) as [rest [Hrest Hlen]].
    + intros i Hi.
      replace (off + 32 + 32 * N.of_nat i) with (off + 32 * N.of_nat (S i))
        by lia.
      apply Hbefore. lia.
    + replace (off + 32 + 32 * N.of_nat n) with (off + 32 * N.of_nat (S n))
        by lia.
      exact Hterm.
    + lia.
    + exists (field :: rest). rewrite Hrest, <- app_assoc. cbn [app List.length].
      split; [do 2 f_equal; lia | congruence].
Qed.

(** Where the descriptor loop fails: at a slot that starts inside the header
    and whose first 18 bytes pass the end of the buffer, no slot up to it
    starting with the terminator. *)
Lemma descriptorLoop_Throw_slot buffer hl descriptorOffset acc :
  forall e,
    descriptorLoop buffer hl descriptorOffset acc = Throw e ->
    exists k,
      descriptorOffset + 32 * N.of_nat k < hl
      /\ byteLength buffer < descriptorOffset + 32 * N.of_nat k + 18
      /\ forall i, (i <= k)%nat ->
           getUint8 buffer (descriptorOffset + 32 * N.of_nat i) <> Ok 13.
Proof.
  funelim (descriptorLoop buffer hl descriptorOffset acc);
    intros e' Hres; try discriminate.
  - exists 0%nat.
    replace (descriptorOffset + 32 * N.of_nat 0) with descriptorOffset by lia.
    pose proof (proj1 (N.ltb_lt _ _) Hlt) as Hlt'.
    match goal with
    | E : getUint8 _ _ = Throw _ |- _ =>
        split; [exact Hlt' |]; split;
        [ destruct (N.lt_ge_cases descriptorOffset (byteLength buffer))
            as [Hin | Hout]; [| lia];
          destruct (getUint8_inside buffer descriptorOffset Hin) as [b Hb];
          congruence
        | intros i Hi; replace i with 0%nat by lia;
          replace (descriptorOffset + 32 * N.of_nat 0) with descriptorOffset
            by lia; congruence ]
    end.
  - match goal with
    | IH : forall e, _ -> exists k, _ |- _ =>
        destruct (IH e' Hres) as [k [Hk1 [Hk2 Hk3]]]
    end.
    exists (S k).
    replace (descriptorOffset + 32 * N.of_nat (S k))
      with (descriptorOffset + 32 + 32 * N.of_nat k) by lia.
    split; [exact Hk1 |]. split; [exact Hk2 |].
    intros i Hi. destruct i as [|i].
    + replace (descriptorOffset + 32 * N.of_nat 0) with descriptorOffset by lia.
      match goal with
      | E : getUint8 _ descriptorOffset = Ok ?m, F : (?m =? 13) = false |- _ =>
          rewrite E; apply N.eqb_neq in F; congruence
      end.
    + replace (descriptorOffset + 32 * N.of_nat (S i))
        with (descriptorOffset + 32 + 32 * N.of_nat i) by lia.
      apply Hk3. lia.
  - exists 0%nat.
    replace (descriptorOffset + 32 * N.of_nat 0) with descriptorOffset by lia.
    pose proof (proj1 (N.ltb_lt _ _) Hlt) as Hlt'. split; [exact Hlt' |]. split.
    + destruct (N.lt_ge_cases (byteLength buffer) (descriptorOffset + 18))
        as [Hshort | Hlong]; [exact Hshort |].
      destruct (readDescriptor_inside buffer descriptorOffset
                  (N.of_nat (List.length fields0) + 1) Hlong) as [f Hf].
      congruence.
    + intros i Hi. replace i with 0%nat by lia.
      replace (descriptorOffset + 32 * N.of_nat 0) with descriptorOffset by lia.
      match goal with
      | E : getUint8 _ descriptorOffset = Ok ?m, F : (?m =? 13) = false |- _ =>
          rewrite E; apply N.eqb_neq in F; congruence
      end.
Qed.

(** X3: the no-fields error is raised exactly when the preamble is accepted
    and the table is empty: the header ends at byte 32 or before, or byte 32
    is the terminator. *)
Theorem no_fields_iff :
  forall buffer,
    convertDbfToCsv buffer = Throw NoFieldsDefined
    <-> exists rc hl rl,
          readPreamble buffer = Ok (rc, hl, rl)
          /\ (hl <= 32 \/ getUint8 buffer 32 = Ok 13).
Proof.
  intros buffer. split.
  - intros H. apply convert_Throw_inv in H.
    destruct H as [H | [rc [hl [rl [Hpre H]]]]].
    + apply readPreamble_Throw_inv in H.
      destruct H as [[H _] | [_ [hl [rl [_ [_ [[H _] | [H _]]]]]]]];
        discriminate.
    + exists rc, hl, rl. split; [exact Hpre |].
      destruct H as [[_ H] | [[off [H _]] | [fs [off [_ [_ [[_ H] | [_ H]]]]]]]];
        try discriminate.
      rewrite descriptorLoop_step in H.
      destruct (32 <? hl) eqn:E; [| left; apply N.ltb_ge; exact E].
      right.
      destruct (getUint8 buffer 32) as [marker|e]; [| discriminate].
      destruct (marker =? 13) eqn:Em;
        [apply N.eqb_eq in Em; congruence |].
      destruct (readDescriptor buffer 32 _) as [field|e]; [| discriminate].
      apply descriptorLoop_prefix in H. destruct H as [rest H].
      discriminate.
  - intros [rc [hl [rl [Hpre H]]]].
    rewrite convert_phases, Hpre, descriptorLoop_step.
    destruct (32 <? hl) eqn:E; [| reflexivity].
    destruct H as [H | H]; [apply N.ltb_lt in E; lia |].
    rewrite H. reflexivity.
Qed.

Lemma descriptorLoop_fails buffer hl :
  forall k descriptorOffset acc,
    descriptorOffset + 32 * N.of_nat k < hl ->
    byteLength buffer < descriptorOffset + 32 * N.of_nat k + 18 ->
    (forall i, (i <= k)%nat ->
               getUint8 buffer (descriptorOffset + 32 * N.of_nat i) <> Ok 13) ->
    descriptorLoop buffer hl descriptorOffset acc = Throw RangeError.
Proof.
  induction k as [|k IH]; intros off acc Hin Hshort Hno;
    rewrite descriptorLoop_step;
    (assert (Hlt : (off <? hl) = true) by (apply N.ltb_lt; lia));
    rewrite Hlt;
    (destruct (getUint8 buffer off) as [marker|e] eqn:Hmarker;
      [| rewrite (getUint8_Throw _ _ _ Hmarker); reflexivity ]);
    (assert (Hm : (marker =? 13) = false)
       by (apply N.eqb_neq; intros ->; apply (Hno 0%nat); [lia |];
           replace (off + 32 * N.of_nat 0) with off by lia; exact Hmarker));
    rewrite Hm;
    (destruct (readDescriptor buffer off (N.of_nat (List.length acc) + 1))
       as [field|e] eqn:Hfield;
      [| rewrite (readDescriptor_Throw _ _ _ _ Hfield); reflexivity ]).
  - apply readDescriptor_Ok in Hfield. lia.
  - apply IH.
    + lia.
    + lia.
    + intros i Hi.
      replace (off + 32 + 32 * N.of_nat i) with (off + 32 * N.of_nat (S i))
        by lia.
      apply Hno. lia.
Qed.

(** X4: a [RangeError] escapes exactly when the preamble is accepted and
    some 32-byte slot of the table starts inside the header, has its first
    18 bytes passing the end of the buffer, and no slot up to it starts with
    the terminator. *)
Theorem range_error_iff :
  forall buffer,
    convertDbfToCsv buffer = Throw RangeError
    <-> exists rc hl rl k,
          readPreamble buffer = Ok (rc, hl, rl)
          /\ 32 + 32 * N.of_nat k < hl
          /\ byteLength buffer < 32 + 32 * N.of_nat k + 18
          /\ forall i, (i <= k)%nat ->
               getUint8 buffer (32 + 32 * N.of_nat i) <> Ok 13.
Proof.
  intros buffer. split.
  - intros H. apply convert_Throw_inv in H.
    destruct H as [H | [rc [hl [rl [Hpre H]]]]].
    + apply readPreamble_Throw in H. discriminate.
    + destruct H as [[H _] | [[off [_ H]] | [fs [off [_ [_ [[_ H] | [_ H]]]]]]]];
        try discriminate.
      destruct (descriptorLoop_Throw_slot _ _ _ _ _ H) as [k Hk].
      exists rc, hl, rl, k. tauto.
  - intros [rc [hl [rl [k [Hpre [Hin [Hshort Hno]]]]]]].
    rewrite convert_phases, Hpre.
    rewrite (descriptorLoop_fails buffer hl k 32 [] Hin Hshort Hno).
    reflexivity.
Qed.

(** X5: when the preamble is accepted and slot [n] is the first slot of the
    table that starts with the terminator, and it starts inside the header,
    the table has exactly [n] fields, one read from each slot before it, and
    the loop ends one byte after the terminator. *)
Theorem table_ends_at_first_terminator :
  forall buffer rc hl rl n,
    readPreamble buffer = Ok (rc, hl, rl) ->
    (forall i, (i < n)%nat ->
               getUint8 buffer (32 + 32 * N.of_nat i) <> Ok 13) ->
    getUint8 buffer (32 + 32 * N.of_nat n) = Ok 13 ->
    32 + 32 * N.of_nat n < hl ->
    exists fs,
      descriptorLoop buffer hl 32 [] = Ok (fs, 32 + 32 * N.of_nat n + 1)
      /\ List.length fs = n
      /\ descriptorsRead buffer fs.
Proof.
  intros buffer rc hl rl n Hpre Hbefore Hterm Hin.
  pose proof (readPreamble_Ok _ _ _ _ Hpre) as [_ [_ [_ Hhl]]].
  destruct (descriptorLoop_terminated buffer hl Hhl n 32 [] Hbefore Hterm Hin)
    as [fs [Hloop Hlen]].
  cbn [app] in Hloop. exists fs. split; [exact Hloop |].
  split; [exact Hlen |].
  apply (descriptorLoop_read buffer hl 32 [] fs _ Hloop);
    [reflexivity | apply descriptorsRead_nil].
Qed.

Lemma table_ends_at_first_terminator_witness :
  readPreamble twoFields = Ok (3, 97, 6)
  /\ getUint8 twoFields (32 + 32 * N.of_nat 2) = Ok 13
  /\ exists fs,
       descriptorLoop twoFields 97 32 [] = Ok (fs, 32 + 32 * N.of_nat 2 + 1)
       /\ List.length fs = 2%nat
       /\ descriptorsRead twoFields fs.
Proof.
  split; [vm_compute; reflexivity |].
  split; [vm_compute; reflexivity |].
  apply (table_ends_at_first_terminator twoFields 3 97 6 2).
  - vm_compute; reflexivity.
  - intros i Hi.
    destruct i as [|[|i]]; [vm_compute; discriminate .. | lia].
  - vm_compute; reflexivity.
  - vm_compute; reflexivity.
Defined.

(** ** Success *)

Lemma mapM_Ok_In {A B : Type} (f : A -> result B) l bs :
  mapM f l = Ok bs -> forall a, In a l -> exists b, f a = Ok b.
Proof.
  intros H. apply mapM_Ok in H.
  induction H as [|a b l bs Hab _ IH]; intros a' Hin; [contradiction |].
  destruct Hin as [<- | Hin]; eauto.
Qed.

Lemma table_text buffer fs rc hl rl :
  join CRLF (map rowText (tableOf buffer fs rc hl rl))
  = join CRLF
      (headerRow fs
       :: map (fun j => rowText (valuesOf buffer fs (recordOffsetOf hl rl j + 1)))
            (liveIndices buffer rc hl rl)).
Proof.
  unfold tableOf, headerRow, rowText. cbn [map]. rewrite !map_map.
  reflexivity.
Qed.

(** X6: the conversion succeeds exactly when the preamble is accepted, the
    table is read and has a field, one full record fits after the header,
    and the fields of every live record end inside the buffer; its CSV is
    then the table of the field names and of the values of the live records,
    and its parsed count is the number of live records. *)
Theorem convert_succeeds_iff :
  forall buffer r,
    convertDbfToCsv buffer = Ok r
    <-> (exists off,
           readPreamble buffer
           = Ok (recordCount r, headerLength r, recordLength r)
           /\ descriptorLoop buffer (headerLength r) 32 [] = Ok (fields r, off))
        /\ fields r <> []
        /\ headerLength r + recordLength r <= byteLength buffer
        /\ (forall j,
              In j (liveIndices buffer (recordCount r) (headerLength r)
                      (recordLength r)) ->
              fieldsFit buffer (fields r) (headerLength r) (recordLength r) j)
        /\ csv r
           = join CRLF
               (map rowText
                  (tableOf buffer (fields r) (recordCount r) (headerLength r)
                     (recordLength r)))
        /\ parsedRecords r
           = N.of_nat
               (List.length
                  (liveIndices buffer (recordCount r) (headerLength r)
                     (recordLength r))).
Proof.
  intros buffer r. split.
  - intros H.
    destruct (convert_Ok buffer r H) as [off [Hpre [Hdesc [Hfs Hroom]]]].
    pose proof (readPreamble_Ok _ _ _ _ Hpre) as [_ [_ [Hrl _]]].
    split; [exists off; auto |]. split; [exact Hfs |].
    split; [exact Hroom |]. split; [| split].
    + intros j Hj.
      destruct (convert_Ok_rows buffer r H) as [rows [Hrows _]].
      destruct (mapM_Ok_In _ _ _ Hrows j Hj) as [row Hrow].
      apply filter_In in Hj. destruct Hj as [_ Hlive].
      destruct (fieldsFit_dec buffer (fields r) (headerLength r)
                  (recordLength r) j) as [Hfit | Hno]; [exact Hfit |].
      rewrite rowOf_overflow in Hrow; auto using live_inBounds.
      discriminate.
    + exact (convert_Ok_table buffer r H).
    + exact (parsed_is_live buffer r H).
  - intros [[off [Hpre Hdesc]] [Hfs [Hroom [Hfit [Hcsv Hparsed]]]]].
    rewrite (convert_scan _ _ _ _ _ _ Hpre Hdesc Hfs Hroom).
    fold (liveIndices buffer (recordCount r) (headerLength r) (recordLength r)).
    rewrite (mapM_all _
               (fun j =>
                  rowText
                    (valuesOf buffer (fields r)
                       (recordOffsetOf (headerLength r) (recordLength r) j + 1))))
      by (intros j Hj; apply rowOf_fits, Hfit, Hj).
    cbn [bind]. rewrite length_map, <- table_text, <- Hcsv, <- Hparsed.
    destruct r; reflexivity.
Qed.

(** X7: reading the CSV of a successful conversion back gives exactly the
    field names followed by the sanitized values of the live records. *)
Theorem csv_round_trip :
  forall buffer r,
    convertDbfToCsv buffer = Ok r ->
    Rfc4180.parse (csv r)
    = tableOf buffer (fields r) (recordCount r) (headerLength r)
        (recordLength r).
Proof.
  intros buffer r H.
  destruct (convert_Ok buffer r H) as [off [_ [_ [Hfs _]]]].
  rewrite (convert_Ok_table buffer r H).
  apply parse_table. constructor.
  - destruct (fields r); [congruence | discriminate].
  - apply Forall_map, Forall_forall. intros j _ Hnil.
    apply (f_equal (@List.length jsstring)) in Hnil.
    rewrite valuesOf_length in Hnil.
    destruct (fields r); [congruence | discriminate].
Qed.

Lemma csv_round_trip_witness :
  convertDbfToCsv twoFields = Ok twoFieldsResult
  /\ Rfc4180.parse (csv twoFieldsResult)
     = tableOf twoFields (fields twoFieldsResult)
         (recordCount twoFieldsResult) (headerLength twoFieldsResult)
         (recordLength twoFieldsResult).
Proof.
  split; [vm_compute; reflexivity |].
  apply (csv_round_trip twoFields twoFieldsResult).
  vm_compute; reflexivity.
Defined.

Lemma live_room buffer hl rl count :
  0 < rl ->
  forall start,
    hl + start * rl <= byteLength buffer ->
    hl + start * rl
    + N.of_nat (List.length (filter (live buffer hl rl) (indices start count)))
      * rl
    <= byteLength buffer.
Proof.
  intros Hrl. induction count as [|count IH]; intros start Hstart.
  - cbn [indices filter List.length]. lia.
  - destruct (inBounds buffer hl rl start) eqn:Ein.
    + cbn [indices filter]. unfold live at 1. rewrite Ein. cbn [andb].
      assert (Hnext : hl + (start + 1) * rl <= byteLength buffer).
      { unfold inBounds, recordOffsetOf in Ein. apply N.leb_le in Ein. lia. }
      specialize (IH (start + 1) Hnext).
      destruct (negb (isDeleted buffer hl rl start)); cbn [List.length]; lia.
    + rewrite (no_live_after buffer hl rl Hrl start (S count) Ein).
      cbn [List.length]. lia.
Qed.

(** X8: the records parsed all lie inside the buffer: header length plus
    parsed count times record length is at most the buffer length, whatever
    count the header declares. *)
Theorem parsed_records_fit :
  forall buffer r,
    convertDbfToCsv buffer = Ok r ->
    headerLength r + parsedRecords r * recordLength r <= byteLength buffer.
Proof.
  intros buffer r H.
  destruct (convert_Ok buffer r H) as [off [Hpre _]].
  pose proof (readPreamble_Ok _ _ _ _ Hpre) as [_ [_ [Hrl Hhl]]].
  rewrite (parsed_is_live buffer r H).
  pose proof (live_room buffer (headerLength r) (recordLength r)
                (N.to_nat (recordCount r)) Hrl 0) as Hroom.
  lia.
Qed.

Lemma parsed_records_fit_witness :
  convertDbfToCsv twoFields = Ok twoFieldsResult
  /\ headerLength twoFieldsResult
     + parsedRecords twoFieldsResult * recordLength twoFieldsResult
     <= byteLength twoFields.
Proof.
  split; [vm_compute; reflexivity |].
  apply (parsed_records_fit twoFields twoFieldsResult).
  vm_compute; reflexivity.
Defined.

(** ** The field list *)

Lemma descriptorLoop_count buffer hl descriptorOffset acc :
  forall fs off,
    descriptorLoop buffer hl descriptorOffset acc = Ok (fs, off) ->
    descriptorOffset = 32 + 32 * N.of_nat (List.length acc) ->
    (acc = [] \/ 32 * N.of_nat (List.length acc) < hl) ->
    fs = [] \/ 32 * N.of_nat (List.length fs) < hl.
Proof.
  funelim (descriptorLoop buffer hl descriptorOffset acc);
    intros fs off Hres Hoff Hacc; try discriminate.
  - inv Hres. exact Hacc.
  - inv Hres. exact Hacc.
  - pose proof (proj1 (N.ltb_lt _ _) Hlt) as Hlt'.
    match goal with
    | IH : forall fs off, _ -> _ -> _ -> _ |- _ => apply (IH fs off Hres)
    end.
    + rewrite length_app. cbn [List.length]. lia.
    + right. rewrite length_app. cbn [List.length]. lia.
Qed.

Lemma field_of_descriptor buffer descriptorOffset ordinal field :
  readDescriptor buffer descriptorOffset ordinal = Ok field ->
  field_name field <> []
  /\ (exists c, field_type field = [c] /\ c <= 255)
  /\ field_length field <= 255
  /\ field_decimalCount field <= 255.
Proof.
  unfold readDescriptor. intros H.
  apply bind_Ok in H. destruct H as [nameBytes [_ H]].
  apply bind_Ok in H. destruct H as [t [Ht H]].
  apply bind_Ok in H. destruct H as [l [Hl H]].
  apply bind_Ok in H. destruct H as [d [Hd H]].
  assert (Hbyte : forall o b, getUint8 buffer o = Ok b -> b <= 255).
  { intros o b. unfold getUint8.
    destruct (nth_error buffer (N.to_nat o)); [| discriminate].
    intros E. inv E. apply Byte.to_N_bounded. }
  inv H. cbn [field_name field_type field_length field_decimalCount].
  split; [| split; [| split]].
  - destruct (sanitizeText nameBytes); discriminate.
  - exists t. split; [reflexivity | eauto].
  - eauto.
  - eauto.
Qed.

(** X9: every field that the table yields has a non-empty name, a type of
    one code unit below 256, and a length and a decimal count below 256. *)
Theorem field_metadata_ranges :
  forall buffer hl fs off field,
    descriptorLoop buffer hl 32 [] = Ok (fs, off) ->
    In field fs ->
    field_name field <> []
    /\ (exists c, field_type field = [c] /\ c <= 255)
    /\ field_length field <= 255
    /\ field_decimalCount field <= 255.
Proof.
  intros buffer hl fs off field Hloop Hin.
  assert (Hread : descriptorsRead buffer fs).
  { apply (descriptorLoop_read buffer hl 32 [] fs off Hloop);
      [reflexivity | apply descriptorsRead_nil]. }
  apply In_nth_error in Hin. destruct Hin as [k Hk].
  exact (field_of_descriptor _ _ _ _ (Hread k field Hk)).
Qed.

Lemma field_metadata_ranges_witness :
  descriptorLoop twoFields 97 32 [] = Ok ([fieldID; fieldTwo], 97)
  /\ In fieldTwo [fieldID; fieldTwo]
  /\ field_name fieldTwo <> []
  /\ (exists c, field_type fieldTwo = [c] /\ c <= 255)
  /\ field_length fieldTwo <= 255
  /\ field_decimalCount fieldTwo <= 255.
Proof.
  split; [vm_compute; reflexivity |].
  split; [right; left; reflexivity |].
  apply (field_metadata_ranges twoFields 97 [fieldID; fieldTwo] 97 fieldTwo).
  - vm_compute; reflexivity.
  - right; left; reflexivity.
Defined.

(** X10: the numbers of a successful conversion are in range: the declared
    count is below 2^32, the header and record lengths are below 2^16 and
    not zero, and there are between 1 and 2047 fields, 32 bytes of header
    for each and more. *)
Theorem summary_ranges :
  forall buffer r,
    convertDbfToCsv buffer = Ok r ->
    recordCount r < 4294967296
    /\ 0 < headerLength r < 65536
    /\ 0 < recordLength r < 65536
    /\ 32 * N.of_nat (List.length (fields r)) < headerLength r
    /\ 1 <= N.of_nat (List.length (fields r)) <= 2047.
Proof.
  intros buffer r H.
  destruct (convert_Ok buffer r H) as [off [Hpre [Hdesc [Hfs _]]]].
  pose proof (readPreamble_Ok _ _ _ _ Hpre) as [Hlen [Hhl [Hrl _]]].
  destruct (header_numbers buffer Hlen)
    as [rc [hl [rl [_ [_ [_ [Brc [Bhl [Brl Heq]]]]]]]]].
  rewrite Hpre in Heq.
  destruct ((hl =? 0) || (rl =? 0)); [discriminate |].
  destruct (byteLength buffer <? hl); [discriminate |].
  inv Heq.
  destruct (descriptorLoop_count buffer (headerLength r) 32 [] (fields r) off
              Hdesc eq_refl (or_introl eq_refl)) as [Hnil | Hcount];
    [contradiction |].
  assert (Hpos : 1 <= N.of_nat (List.length (fields r))).
  { destruct (fields r); [congruence | cbn [List.length]; lia]. }
  lia.
Qed.

Lemma summary_ranges_witness :
  convertDbfToCsv twoFields = Ok twoFieldsResult
  /\ recordCount twoFieldsResult < 4294967296
  /\ 0 < headerLength twoFieldsResult < 65536
  /\ 0 < recordLength twoFieldsResult < 65536
  /\ 32 * N.of_nat (List.length (fields twoFieldsResult))
     < headerLength twoFieldsResult
  /\ 1 <= N.of_nat (List.length (fields twoFieldsResult)) <= 2047.
Proof.
  split; [vm_compute; reflexivity |].
  apply (summary_ranges twoFields twoFieldsResult).
  vm_compute; reflexivity.
Defined.

(** ** Writing and reading cells *)

(** X11: reading back a cell that [escapeCsv] wrote gives the one value it
    was written from, so two values never share a cell text. *)
Theorem escapeCsv_round_trip :
  (forall value, Rfc4180.parse (escapeCsv value) = [[value]])
  /\ (forall v w, escapeCsv v = escapeCsv w -> v = w).
Proof.
  assert (Hread : forall value, Rfc4180.parse (escapeCsv value) = [[value]]).
  { intros value. unfold parse.
    rewrite <- (app_nil_r (escapeCsv value)).
    rewrite parse_cell by reflexivity. reflexivity. }
  split; [exact Hread |].
  intros v w H. pose proof (Hread v) as Hv. rewrite H, Hread in Hv.
  congruence.
Qed.

(** X12: a table with at least one row and no empty row, written cell by
    cell with [escapeCsv], joined by commas and the rows by CRLF, is read
    back unchanged, whatever the cells contain. *)
Theorem table_round_trip :
  forall table,
    table <> [] ->
    Forall (fun values => values <> []) table ->
    Rfc4180.parse (join CRLF (map rowText table)) = table.
Proof.
  intros table Hne Hrows.
  destruct table as [|values table]; [congruence |].
  apply parse_table, Hrows.
Qed.

Lemma table_round_trip_witness :
  [[lit "a,b"; []]; [[DQUOTE; CR; LF]]] <> []
  /\ Rfc4180.parse
       (join CRLF (map rowText [[lit "a,b"; []]; [[DQUOTE; CR; LF]]]))
     = [[lit "a,b"; []]; [[DQUOTE; CR; LF]]].
Proof.
  split; [discriminate |].
  apply (table_round_trip [[lit "a,b"; []]; [[DQUOTE; CR; LF]]]).
  - discriminate.
  - repeat constructor; discriminate.
Defined.

(** ** Sanitized text *)

Lemma trimStart_head s c s' :
  trimStart s = c :: s' -> isWhiteSpace c = false.
Proof.
  induction s as [|d s IH]; simpl; [discriminate |].
  destruct (isWhiteSpace d) eqn:E; [exact IH |].
  intros H. inv H. exact E.
Qed.

Lemma trimStart_In s c : In c (trimStart s) -> In c s.
Proof.
  induction s as [|d s IH]; simpl; [auto |].
  destruct (isWhiteSpace d); [auto |]. simpl. auto.
Qed.

Lemma trimStart_length s :
  (List.length (trimStart s) <= List.length s)%nat.
Proof.
  induction s as [|d s IH]; simpl; [lia |].
  destruct (isWhiteSpace d); simpl; lia.
Qed.

Lemma trimStart_app s t :
  trimStart (s ++ t)
  = match trimStart s with
    | [] => trimStart t
    | _ => trimStart s ++ t
    end.
Proof.
  induction s as [|d s IH]; simpl.
  - destruct (trimStart t); reflexivity.
  - destruct (isWhiteSpace d); [exact IH | reflexivity].
Qed.

Lemma trimStart_space w :
  Forall (fun c => isWhiteSpace c = true) w -> trimStart w = [].
Proof.
  induction 1 as [|c w Hc _ IH]; simpl; [reflexivity |].
  rewrite Hc. exact IH.
Qed.

Lemma trimEnd_cons c s :
  isWhiteSpace c = false -> trimEnd (c :: s) = c :: trimEnd s.
Proof.
  intros Hc. unfold trimEnd. cbn [rev]. rewrite trimStart_app.
  destruct (trimStart (rev s)) eqn:E.
  - cbn. rewrite Hc. reflexivity.
  - rewrite rev_unit. reflexivity.
Qed.

Lemma trimEnd_last s c s' :
  trimEnd s = s' ++ [c] -> isWhiteSpace c = false.
Proof.
  unfold trimEnd. intros H.
  apply (f_equal (@rev N)) in H. rewrite rev_involutive, rev_unit in H.
  exact (trimStart_head _ _ _ H).
Qed.

Lemma trimEnd_app_space s w :
  Forall (fun c => isWhiteSpace c = true) w -> trimEnd (s ++ w) = trimEnd s.
Proof.
  intros Hw. unfold trimEnd. rewrite rev_app_distr, trimStart_app.
  rewrite trimStart_space; [reflexivity |].
  apply Forall_rev. exact Hw.
Qed.

Lemma trim_trimmed s : trimmed (trim s).
Proof.
  unfold trim. split.
  - intros c s' H. destruct (trimStart s) as [|d t] eqn:E.
    + discriminate.
    + pose proof (trimStart_head _ _ _ E) as Hd.
      rewrite (trimEnd_cons _ _ Hd) in H. inv H. exact Hd.
  - intros c s'. apply trimEnd_last.
Qed.

Lemma trim_In s c : In c (trim s) -> In c s.
Proof.
  unfold trim, trimEnd. intros H.
  apply in_rev, trimStart_In, in_rev, trimStart_In in H. exact H.
Qed.

Lemma trim_length s : (List.length (trim s) <= List.length s)%nat.
Proof.
  unfold trim, trimEnd. rewrite length_rev.
  pose proof (trimStart_length (rev (trimStart s))) as H1.
  rewrite length_rev in H1.
  pose proof (trimStart_length s). lia.
Qed.

Lemma replaceAll_nil_In s c d : In d (replaceAll s c []) -> d <> c /\ In d s.
Proof.
  induction s as [|x s IH]; simpl; [contradiction |].
  destruct (x =? c) eqn:E; cbn [app].
  - intros H. destruct (IH H). auto.
  - apply N.eqb_neq in E. intros [<- | H]; [auto |].
    destruct (IH H). auto.
Qed.

Lemma replaceAll_nil_length s c :
  (List.length (replaceAll s c []) <= List.length s)%nat.
Proof.
  induction s as [|x s IH]; simpl; [lia |].
  destruct (x =? c); cbn [app List.length]; lia.
Qed.

Lemma replaceAll_app s t c by_ :
  replaceAll (s ++ t) c by_ = replaceAll s c by_ ++ replaceAll t c by_.
Proof.
  induction s as [|x s IH]; simpl; [reflexivity |].
  rewrite IH, app_assoc. reflexivity.
Qed.

Lemma sanitizeText_no_nul bytes : ~ In 0 (sanitizeText bytes).
Proof.
  unfold sanitizeText. intros H.
  apply trim_In, replaceAll_nil_In in H. destruct H as [H _]. congruence.
Qed.

Lemma sanitizeText_trimmed bytes : trimmed (sanitizeText bytes).
Proof. unfold sanitizeText. apply trim_trimmed. Qed.

Lemma sanitizeText_length bytes :
  (List.length (sanitizeText bytes) <= List.length bytes)%nat.
Proof.
  unfold sanitizeText.
  pose proof (trim_length (replaceAll (decode bytes) 0 [])).
  pose proof (replaceAll_nil_length (decode bytes) 0).
  unfold decode in *. rewrite length_map in *. lia.
Qed.

(** X13: the sanitized text of a span of bytes holds no NUL, neither begins
    nor ends with white space, and has at most one code unit per byte. *)
Theorem sanitizeText_shape :
  forall bytes,
    ~ In 0 (sanitizeText bytes)
    /\ trimmed (sanitizeText bytes)
    /\ (List.length (sanitizeText bytes) <= List.length bytes)%nat.
Proof.
  intros bytes. split; [| split].
  - apply sanitizeText_no_nul.
  - apply sanitizeText_trimmed.
  - apply sanitizeText_length.
Qed.

Lemma padding_text pad :
  forallb isPadding pad = true ->
  Forall (fun c => isWhiteSpace c = true) (replaceAll (decode pad) 0 []).
Proof.
  induction pad as [|b pad IH]; simpl; intros H; [constructor |].
  apply andb_true_iff in H. destruct H as [Hb Hpad].
  unfold isPadding in Hb.
  destruct (decodeByte b =? 0) eqn:E; cbn [app].
  - apply IH, Hpad.
  - simpl in Hb. constructor; [exact Hb | apply IH, Hpad].
Qed.

(** X14: padding does not count: bytes that decode to NUL or to white
    space, before or after a span, leave its sanitized text unchanged. *)
Theorem sanitizeText_padding :
  forall before bytes after,
    forallb isPadding before = true ->
    forallb isPadding after = true ->
    sanitizeText (before ++ bytes ++ after) = sanitizeText bytes.
Proof.
  intros before bytes after Hb Ha. unfold sanitizeText, decode.
  rewrite !map_app, !replaceAll_app. fold (decode before) (decode bytes)
                                          (decode after).
  pose proof (padding_text before Hb) as Wb.
  pose proof (padding_text after Ha) as Wa.
  unfold trim.
  rewrite trimStart_app, (trimStart_space _ Wb).
  rewrite trimStart_app.
  destruct (trimStart (replaceAll (decode bytes) 0 [])) as [|c t] eqn:E.
  - rewrite (trimStart_space _ Wa). reflexivity.
  - apply trimEnd_app_space, Wa.
Qed.

Lemma sanitizeText_padding_witness :
  forallb isPadding [x20; x00; x09] = true
  /\ forallb isPadding [xa0; x00; x20] = true
  /\ sanitizeText ([x20; x00; x09] ++ list_byte_of_string "12.5"
                   ++ [xa0; x00; x20])
     = sanitizeText (list_byte_of_string "12.5").
Proof.
  split; [reflexivity |]. split; [reflexivity |].
  apply (sanitizeText_padding [x20; x00; x09] (list_byte_of_string "12.5")
           [xa0; x00; x20]); reflexivity.
Defined.

(** ** A declared count that overstates *)

Lemma live_upto buffer hl rl rc i :
  0 < rl ->
  i <= rc ->
  inBounds buffer hl rl i = false ->
  filter (live buffer hl rl) (indices 0 (N.to_nat rc))
  = filter (live buffer hl rl) (indices 0 (N.to_nat i)).
Proof.
  intros Hrl Hi Hout.
  destruct (N.eq_dec i rc) as [-> | Hne]; [reflexivity |].
  apply live_before; [exact Hrl | lia | exact Hout].
Qed.

(** X15: a declared record count that overstates is harmless: once some
    record index does not fit in the buffer, any two declared counts at or
    above that index give the same rows and the same parsed count. *)
Theorem overstated_count_harmless :
  forall buffer fs hl rl i rc rc' rows parsed,
    0 < rl ->
    inBounds buffer hl rl i = false ->
    i <= rc ->
    i <= rc' ->
    recordLoop buffer fs hl rl (N.to_nat rc) 0 rows parsed
    = recordLoop buffer fs hl rl (N.to_nat rc') 0 rows parsed.
Proof.
  intros buffer fs hl rl i rc rc' rows parsed Hrl Hout Hrc Hrc'.
  rewrite !(recordLoop_eq buffer fs hl rl Hrl).
  rewrite (live_upto buffer hl rl rc i Hrl Hrc Hout).
  rewrite (live_upto buffer hl rl rc' i Hrl Hrc' Hout).
  reflexivity.
Qed.

Lemma overstated_count_harmless_witness :
  inBounds twoFields 97 6 2 = false
  /\ recordLoop twoFields [fieldID; fieldTwo] 97 6 (N.to_nat 3) 0 [] 0
     = recordLoop twoFields [fieldID; fieldTwo] 97 6 (N.to_nat 1000) 0 [] 0.
Proof.
  split; [vm_compute; reflexivity |].
  apply (overstated_count_harmless twoFields [fieldID; fieldTwo] 97 6 2 3 1000);
    try reflexivity; vm_compute; discriminate.
Defined.

(** ** The cells of a record *)

Lemma valuesOf_nth buffer fs :
  forall k fieldOffset field,
    nth_error fs k = Some field ->
    nth_error (valuesOf buffer fs fieldOffset) k
    = Some (sanitizeText
              (window buffer (fieldOffset + totalLength (firstn k fs))
                 (field_length field))).
Proof.
  induction fs as [|f fs IH]; intros k off field Hk.
  - destruct k; discriminate.
  - destruct k as [|k]; cbn [nth_error valuesOf firstn] in *.
    + inv Hk. unfold totalLength. cbn [fold_right]. rewrite N.add_0_r.
      reflexivity.
    + rewrite (IH k _ field Hk). unfold totalLength. cbn [fold_right].
      fold (totalLength (firstn k fs)). rewrite N.add_assoc. reflexivity.
Qed.

Lemma fieldLoop_Ok_fits buffer fs :
  forall fieldOffset csvCells cells,
    fieldLoop buffer fs fieldOffset csvCells = Ok cells ->
    fs <> [] ->
    fieldOffset + totalLength fs <= byteLength buffer.
Proof.
  induction fs as [|f fs IH]; intros off acc cells H Hne; [congruence |].
  simpl in H.
  destruct (byteLength buffer <? off + field_length f) eqn:E;
    [discriminate |].
  apply N.ltb_ge in E.
  rewrite (Uint8Array_inside _ _ _ E) in H. simpl in H.
  unfold totalLength. cbn [fold_right]. fold (totalLength fs).
  destruct fs as [|g fs'].
  - unfold totalLength. cbn [fold_right]. lia.
  - pose proof (IH _ _ _ H) as Hfit.
    assert (g :: fs' <> []) by discriminate. specialize (Hfit H0). lia.
Qed.

(** X16: the columns are cut at the cumulative declared lengths: when the
    field loop succeeds from [fieldOffset], cell [k] is the escaped,
    sanitized text of the [field_length] bytes that start at [fieldOffset]
    plus the lengths of the fields before it, and the cells are as many as
    the fields. *)
Theorem cells_at_cumulative_offsets :
  forall buffer fs fieldOffset cells k field,
    fieldLoop buffer fs fieldOffset [] = Ok cells ->
    nth_error fs k = Some field ->
    nth_error cells k
    = Some (escapeCsv
              (sanitizeText
                 (window buffer (fieldOffset + totalLength (firstn k fs))
                    (field_length field))))
    /\ List.length cells = List.length fs
    /\ fieldOffset + totalLength fs <= byteLength buffer.
Proof.
  intros buffer fs off cells k field Hloop Hk.
  pose proof (fieldLoop_Ok buffer fs off [] cells Hloop) as Hcells.
  cbn [app] in Hcells. subst cells. split; [| split].
  - rewrite nth_error_map, (valuesOf_nth buffer fs k off field Hk).
    reflexivity.
  - rewrite length_map. apply valuesOf_length.
  - apply (fieldLoop_Ok_fits buffer fs off [] _ Hloop).
    destruct fs; [destruct k; discriminate | discriminate].
Qed.

Lemma cells_at_cumulative_offsets_witness :
  fieldLoop twoFields [fieldID; fieldTwo] 98 []
  = Ok [lit "1"; [DQUOTE] ++ lit "a,b" ++ [DQUOTE]]
  /\ nth_error [lit "1"; [DQUOTE] ++ lit "a,b" ++ [DQUOTE]] 1
     = Some (escapeCsv
               (sanitizeText
                  (window twoFields
                     (98 + totalLength (firstn 1 [fieldID; fieldTwo]))
                     (field_length fieldTwo))))
  /\ List.length [lit "1"; [DQUOTE] ++ lit "a,b" ++ [DQUOTE]]
     = List.length [fieldID; fieldTwo]
  /\ 98 + totalLength [fieldID; fieldTwo] <= byteLength twoFields.
Proof.
  split; [vm_compute; reflexivity |].
  apply (cells_at_cumulative_offsets twoFields [fieldID; fieldTwo] 98
           [lit "1"; [DQUOTE] ++ lit "a,b" ++ [DQUOTE]] 1%nat fieldTwo).
  - vm_compute; reflexivity.
  - reflexivity.
Defined.

(** ** No NUL in the CSV *)

Lemma join_In sep parts c :
  In c (join sep parts) ->
  In c sep \/ exists p, In p parts /\ In c p.
Proof.
  induction parts as [|p parts IH]; [contradiction |].
  destruct parts as [|q parts].
  - intros H. right. exists p. split; [left; reflexivity | exact H].
  - change (join sep (p :: q :: parts))
      with (p ++ sep ++ join sep (q :: parts)).
    intros H. apply in_app_or in H. destruct H as [H | H].
    + right. exists p. split; [left; reflexivity | exact H].
    + apply in_app_or in H. destruct H as [H | H]; [left; exact H |].
      destruct (IH H) as [Hs | [p' [Hp' Hc]]]; [left; exact Hs |].
      right. exists p'. split; [right; exact Hp' | exact Hc].
Qed.

Lemma escapeCsv_In value c :
  In c (escapeCsv value) -> c = DQUOTE \/ In c value.
Proof.
  destruct (special_dec value) as [Hs | Hs].
  - rewrite (escapeCsv_special _ Hs). intros [<- | H]; [auto |].
    apply in_app_or in H. destruct H as [H | [<- | []]]; [| auto].
    unfold doubled in H. apply in_flat_map in H.
    destruct H as [d [Hd Hc]].
    destruct (d =? DQUOTE); cbn in Hc.
    + destruct Hc as [<- | [<- | []]]; auto.
    + destruct Hc as [<- | []]. auto.
  - rewrite (escapeCsv_plain _ Hs). auto.
Qed.

Lemma digits_range d c : In c (digits d) -> 48 <= c <= 57.
Proof.
  induction d; cbn [digits]; intros H;
    try contradiction; (destruct H as [<- | H]; [lia | auto]).
Qed.

Lemma all_black_trimmed s :
  (forall c, In c s -> isWhiteSpace c = false) -> trimmed s.
Proof.
  intros H. split; intros c s' ->; apply H.
  - left. reflexivity.
  - apply in_or_app. right. left. reflexivity.
Qed.

Lemma placeholder_char ordinal c :
  In c (lit "FIELD_" ++ numberToString ordinal) ->
  c <> 0 /\ isWhiteSpace c = false.
Proof.
  intros H. apply in_app_or in H. destruct H as [H | H].
  - cbn in H.
    repeat (destruct H as [<- | H]; [split; [discriminate | reflexivity] |]).
    contradiction.
  - apply digits_range in H. split; [lia |].
    unfold isWhiteSpace.
    repeat match goal with
    | |- context [?a <=? ?b] =>
        let E := fresh "E" in destruct (a <=? b) eqn:E;
        [apply N.leb_le in E | apply N.leb_gt in E]
    | |- context [?a =? ?b] =>
        let E := fresh "E" in destruct (a =? b) eqn:E;
        [apply N.eqb_eq in E | apply N.eqb_neq in E]
    end; cbn; try reflexivity; lia.
Qed.

Lemma field_name_clean buffer descriptorOffset ordinal field :
  readDescriptor buffer descriptorOffset ordinal = Ok field ->
  ~ In 0 (field_name field) /\ trimmed (field_name field).
Proof.
  unfold readDescriptor. intros H.
  apply bind_Ok in H. destruct H as [nameBytes [_ H]].
  apply bind_Ok in H. destruct H as [t [_ H]].
  apply bind_Ok in H. destruct H as [l [_ H]].
  apply bind_Ok in H. destruct H as [d [_ H]].
  inv H. cbn [field_name].
  pose proof (sanitizeText_no_nul nameBytes) as Hnul.
  pose proof (sanitizeText_trimmed nameBytes) as Htrim.
  destruct (sanitizeText nameBytes) as [|c s] eqn:E.
  - split.
    + intros H0. apply placeholder_char in H0. destruct H0. congruence.
    + apply all_black_trimmed. intros c Hc.
      apply (placeholder_char ordinal c Hc).
  - auto.
Qed.

(** X17: the CSV of a successful conversion holds no NUL, and every cell of
    its table, field name or value, holds no NUL and neither begins nor
    ends with white space. *)
Theorem csv_cells_clean :
  forall buffer r,
    convertDbfToCsv buffer = Ok r ->
    ~ In 0 (csv r)
    /\ forall row cell,
         In row (tableOf buffer (fields r) (recordCount r) (headerLength r)
                   (recordLength r)) ->
         In cell row ->
         ~ In 0 cell /\ trimmed cell.
Proof.
  intros buffer r H.
  destruct (convert_Ok buffer r H) as [off [_ [Hdesc _]]].
  assert (Hread : descriptorsRead buffer (fields r)).
  { apply (descriptorLoop_read buffer _ 32 [] _ off Hdesc);
      [reflexivity | apply descriptorsRead_nil]. }
  assert (Hcells : forall row cell,
            In row (tableOf buffer (fields r) (recordCount r) (headerLength r)
                      (recordLength r)) ->
            In cell row -> ~ In 0 cell /\ trimmed cell).
  { intros row cell Hrow Hcell. destruct Hrow as [<- | Hrow].
    - apply in_map_iff in Hcell. destruct Hcell as [f [<- Hf]].
      apply In_nth_error in Hf. destruct Hf as [k Hk].
      exact (field_name_clean _ _ _ _ (Hread k f Hk)).
    - apply in_map_iff in Hrow. destruct Hrow as [j [<- _]].
      assert (Hgen : forall fs o,
                In cell (valuesOf buffer fs o) ->
                ~ In 0 cell /\ trimmed cell).
      { induction fs as [|f fs IH]; intros o Hin; [contradiction |].
        destruct Hin as [<- | Hin]; [| eauto].
        split; [apply sanitizeText_no_nul | apply sanitizeText_trimmed]. }
      eauto. }
  split; [| exact Hcells].
  rewrite (convert_Ok_table buffer r H).
  fold (liveIndices buffer (recordCount r) (headerLength r) (recordLength r)).
  fold (tableOf buffer (fields r) (recordCount r) (headerLength r)
          (recordLength r)).
  intros Hin. apply join_In in Hin.
  destruct Hin as [Hin | [text [Htext Hin]]].
  - cbn in Hin. intuition discriminate.
  - apply in_map_iff in Htext. destruct Htext as [row [<- Hrow]].
    unfold rowText in Hin. apply join_In in Hin.
    destruct Hin as [Hin | [cellText [Hcell Hin]]].
    + cbn in Hin. intuition discriminate.
    + apply in_map_iff in Hcell. destruct Hcell as [cell [<- Hcell]].
      apply escapeCsv_In in Hin. destruct Hin as [Hin | Hin];
        [discriminate |].
      exact (proj1 (Hcells row cell Hrow Hcell) Hin).
Qed.

Lemma csv_cells_clean_witness :
  convertDbfToCsv twoFields = Ok twoFieldsResult
  /\ ~ In 0 (csv twoFieldsResult)
  /\ forall row cell,
       In row (tableOf twoFields (fields twoFieldsResult)
                 (recordCount twoFieldsResult) (headerLength twoFieldsResult)
                 (recordLength twoFieldsResult)) ->
       In cell row ->
       ~ In 0 cell /\ trimmed cell.
Proof.
  split; [vm_compute; reflexivity |].
  apply (csv_cells_clean twoFields twoFieldsResult).
  vm_compute; reflexivity.
Defined.

(** ** The bytes that are never read *)

Section Unused.

Variables b1 b2 : list byte.
Hypothesis agree : agreeOutsideUnused b1 b2.

Lemma agree_byteLength : byteLength b1 = byteLength b2.
Proof.
  unfold byteLength. destruct agree as [Hlen _]. rewrite Hlen. reflexivity.
Qed.

Lemma agree_getUint8 o :
  4 <= o < 12 \/ 32 <= o -> getUint8 b1 o = getUint8 b2 o.
Proof.
  intros Ho. unfold getUint8. destruct agree as [_ Hnth].
  rewrite (Hnth (N.to_nat o)) by lia. reflexivity.
Qed.

Lemma agree_skipn o : (32 <= o)%nat -> skipn o b1 = skipn o b2.
Proof.
  intros Ho. destruct agree as [_ Hnth].
  apply nth_error_ext. intros i. rewrite !nth_error_skipn.
  apply Hnth. lia.
Qed.

Lemma agree_Uint8Array o length :
  32 <= o -> Uint8Array b1 o length = Uint8Array b2 o length.
Proof.
  intros Ho. unfold Uint8Array.
  rewrite agree_byteLength, (agree_skipn (N.to_nat o)) by lia.
  reflexivity.
Qed.

Lemma agree_readPreamble : readPreamble b1 = readPreamble b2.
Proof.
  unfold readPreamble, getUint32, getUint16.
  rewrite agree_byteLength.
  rewrite !(agree_getUint8 4), !(agree_getUint8 (4 + 1)),
    !(agree_getUint8 (4 + 2)), !(agree_getUint8 (4 + 3)),
    !(agree_getUint8 8), !(agree_getUint8 (8 + 1)),
    !(agree_getUint8 10), !(agree_getUint8 (10 + 1)) by lia.
  reflexivity.
Qed.

Lemma agree_readDescriptor o ordinal :
  32 <= o -> readDescriptor b1 o ordinal = readDescriptor b2 o ordinal.
Proof.
  intros Ho. unfold readDescriptor.
  rewrite (agree_Uint8Array o 11 Ho).
  rewrite !(agree_getUint8 (o + 11)), !(agree_getUint8 (o + 16)),
    !(agree_getUint8 (o + 17)) by lia.
  reflexivity.
Qed.

Lemma agree_descriptorLoop hl descriptorOffset acc :
  32 <= descriptorOffset ->
  descriptorLoop b1 hl descriptorOffset acc
  = descriptorLoop b2 hl descriptorOffset acc.
Proof.
  funelim (descriptorLoop b1 hl descriptorOffset acc);
    intros Ho; try clear Heqcall;
    rewrite (descriptorLoop_step b2);
    rewrite <- ?(agree_getUint8 descriptorOffset) by lia;
    rewrite <- ?(agree_readDescriptor descriptorOffset) by exact Ho;
    repeat match goal with
    | E : (_ <? _) = _ |- _ => rewrite E
    | E : getUint8 _ _ = _ |- _ => rewrite E
    | E : (_ =? _) = _ |- _ => rewrite E
    | E : readDescriptor _ _ _ = _ |- _ => rewrite E
    end; try reflexivity.
  match goal with
  | IH : _ -> descriptorLoop _ _ _ _ = _ |- _ => apply IH
  end. lia.
Qed.

Lemma agree_fieldLoop fs :
  forall fieldOffset csvCells,
    32 <= fieldOffset ->
    fieldLoop b1 fs fieldOffset csvCells = fieldLoop b2 fs fieldOffset csvCells.
Proof.
  induction fs as [|f fs IH]; intros off acc Ho; [reflexivity |].
  cbn [fieldLoop].
  rewrite agree_byteLength, (agree_Uint8Array off (field_length f) Ho).
  destruct (byteLength b2 <? off + field_length f); [reflexivity |].
  destruct (Uint8Array b2 off (field_length f)); [| reflexivity].
  cbn [bind]. apply IH. lia.
Qed.

Lemma agree_recordLoop fs dataStart rl remaining :
  32 <= dataStart ->
  forall rowIndex rows parsed,
    recordLoop b1 fs dataStart rl remaining rowIndex rows parsed
    = recordLoop b2 fs dataStart rl remaining rowIndex rows parsed.
Proof.
  intros Hds. induction remaining as [|remaining IH]; intros i rows parsed;
    [reflexivity |].
  cbn [recordLoop].
  rewrite agree_byteLength, (agree_getUint8 (dataStart + i * rl)) by lia.
  destruct (byteLength b2 <? dataStart + i * rl + rl); [reflexivity |].
  destruct (getUint8 b2 (dataStart + i * rl)) as [flag|e]; [| reflexivity].
  cbn [bind]. destruct (flag =? 42); [apply IH |].
  rewrite (agree_fieldLoop fs (dataStart + i * rl + 1) []) by lia.
  destruct (fieldLoop b2 fs (dataStart + i * rl + 1) []); [| reflexivity].
  cbn [bind]. apply IH.
Qed.

End Unused.

(** X18: bytes 0-3 and 12-31 of the preamble are never read: two buffers of
    one length that agree on every other byte convert alike, to the same
    result or to the same error. *)
Theorem unused_preamble_bytes_ignored :
  forall b1 b2,
    agreeOutsideUnused b1 b2 ->
    convertDbfToCsv b1 = convertDbfToCsv b2.
Proof.
  intros b1 b2 Hagree. unfold convertDbfToCsv.
  rewrite (agree_readPreamble b1 b2 Hagree).
  destruct (readPreamble b2) as [[[rc hl] rl]|e]; [| reflexivity].
  cbn [bind].
  rewrite (agree_descriptorLoop b1 b2 Hagree hl 32 []) by lia.
  destruct (descriptorLoop b2 hl 32 []) as [[fs off]|e] eqn:Hdesc;
    [| reflexivity].
  cbn [bind]. destruct fs as [|f fs']; [reflexivity |].
  rewrite (agree_byteLength b1 b2 Hagree).
  destruct (byteLength b2 <? hl + rl); [reflexivity |].
  assert (Hhl : 32 <= hl).
  { destruct (descriptorLoop_count b2 hl 32 [] (f :: fs') off Hdesc eq_refl
                (or_introl eq_refl)) as [Hnil | Hcount]; [discriminate |].
    cbn [List.length] in Hcount. lia. }
  rewrite (agree_recordLoop b1 b2 Hagree (f :: fs') hl rl (N.to_nat rc) Hhl).
  reflexivity.
Qed.

Lemma unused_preamble_bytes_ignored_witness :
  agreeOutsideUnused minimal minimalStamped
  /\ convertDbfToCsv minimal = convertDbfToCsv minimalStamped.
Proof.
  assert (H : agreeOutsideUnused minimal minimalStamped).
  { split; [reflexivity |].
    intros i Hi.
    do 32 (destruct i as [|i]; [destruct Hi; (reflexivity || lia) |]).
    reflexivity. }
  split; [exact H |].
  apply (unused_preamble_bytes_ignored minimal minimalStamped H).
Defined.

(** ** The download name *)

Lemma isDbfSuffix_length s : isDbfSuffix s = true -> List.length s = 4%nat.
Proof.
  destruct s as [|c0 [|c1 [|c2 [|c3 [|c4 s]]]]]; cbn; intros H;
    try discriminate; reflexivity.
Qed.

Lemma replaceDbfSuffix_strips base ext :
  isDbfSuffix ext = true -> replaceDbfSuffix (base ++ ext) = base.
Proof.
  intros Hext. induction base as [|c base IH].
  - cbn [app]. destruct ext; cbn [replaceDbfSuffix]; rewrite Hext; reflexivity.
  - cbn [app replaceDbfSuffix].
    destruct (isDbfSuffix (c :: base ++ ext)) eqn:E.
    + apply isDbfSuffix_length in E. apply isDbfSuffix_length in Hext.
      cbn [List.length] in E. rewrite length_app in E. lia.
    + rewrite IH. reflexivity.
Qed.

Lemma replaceDbfSuffix_keeps s :
  (forall base ext, s = base ++ ext -> isDbfSuffix ext = false) ->
  replaceDbfSuffix s = s.
Proof.
  induction s as [|c s IH]; intros Hno.
  - reflexivity.
  - cbn [replaceDbfSuffix].
    rewrite (Hno [] (c :: s) eq_refl). f_equal. apply IH.
    intros base ext ->. apply (Hno (c :: base) ext). reflexivity.
Qed.

(** X19: the download name always ends with the extension csv after a
    non-empty base.  A file name that ends with a dot and the letters d, b,
    f in either case loses that ending, once; a file name without it is
    kept whole; an empty base becomes dbf-export. *)
Theorem download_name :
  forall dbfSummary,
    (exists base,
       base <> [] /\ dbfDownloadName dbfSummary = base ++ lit ".csv")
    /\ (forall summary base ext,
          dbfSummary = Some summary ->
          fileName summary = base ++ ext ->
          isDbfSuffix ext = true ->
          dbfDownloadName dbfSummary
          = match base with
            | [] => lit "dbf-export"
            | _ => base
            end ++ lit ".csv")
    /\ (forall summary,
          dbfSummary = Some summary ->
          (forall base ext,
             fileName summary = base ++ ext -> isDbfSuffix ext = false) ->
          dbfDownloadName dbfSummary
          = match fileName summary with
            | [] => lit "dbf-export"
            | name => name
            end ++ lit ".csv").
Proof.
  intros dbfSummary. split; [| split].
  - destruct dbfSummary as [summary|].
    + cbn [dbfDownloadName].
      destruct (replaceDbfSuffix (fileName summary)) as [|c s].
      * exists (lit "dbf-export"). split; [discriminate | reflexivity].
      * exists (c :: s). split; [discriminate | reflexivity].
    + exists (lit "dbf-export"). split; [discriminate | reflexivity].
  - intros summary base ext -> Hname Hext. cbn [dbfDownloadName].
    rewrite Hname, (replaceDbfSuffix_strips base ext Hext).
    destruct base; reflexivity.
  - intros summary -> Hno. cbn [dbfDownloadName].
    rewrite (replaceDbfSuffix_keeps _ Hno).
    destruct (fileName summary); reflexivity.
Qed.

Example download_name_examples :
  let named (name : string) :=
    Some {| fileName := lit name; declaredRecords := 0;
            summaryParsedRecords := 0; summaryFields := 1;
            summaryHeaderLength := 65; summaryRecordLength := 11 |} in
  dbfDownloadName (named "parcels.DBF"%string) = lit "parcels.csv"
  /\ dbfDownloadName (named "a.dbf.dbf"%string) = lit "a.dbf.csv"
  /\ dbfDownloadName (named ".dbf"%string) = lit "dbf-export.csv"
  /\ dbfDownloadName (named "dbf"%string) = lit "dbf.csv"
  /\ dbfDownloadName (named "a.dbf "%string) = lit "a.dbf .csv"
  /\ dbfDownloadName None = lit "dbf-export.csv".
Proof. repeat split. Qed.

(** ** The payload test, both ways *)

(** X20: the payload-truncated error is raised exactly when the preamble is
    accepted, the table is read and has a field, and the header length plus
    the record length exceeds the buffer length. *)
Theorem payload_truncated_iff :
  forall buffer,
    convertDbfToCsv buffer = Throw PayloadTruncated
    <-> exists rc hl rl fs off,
          readPreamble buffer = Ok (rc, hl, rl)
          /\ descriptorLoop buffer hl 32 [] = Ok (fs, off)
          /\ fs <> []
          /\ byteLength buffer < hl + rl.
Proof.
  intros buffer. split.
  - intros H. apply convert_Throw_inv in H.
    destruct H as [H | [rc [hl [rl [Hpre H]]]]].
    + apply readPreamble_Throw_inv in H.
      destruct H as [[H _] | [_ [hl [rl [_ [_ [[H _] | [H _]]]]]]]];
        discriminate.
    + destruct H as [[_ H] | [[off [_ H]] | [fs [off [Hdesc [Hfs H]]]]]];
        try discriminate.
      destruct H as [[Hroom _] | [_ H]]; [| discriminate].
      exists rc, hl, rl, fs, off. auto.
  - intros [rc [hl [rl [fs [off [Hpre [Hdesc [Hfs Hroom]]]]]]]].
    apply (convert_no_room buffer rc hl rl fs off); assumption.
Qed.

(** ** A table without terminator *)

Lemma descriptorLoop_unterminated buffer hl :
  forall n descriptorOffset acc,
    (forall i, (i < n)%nat ->
               getUint8 buffer (descriptorOffset + 32 * N.of_nat i) <> Ok 13
               /\ descriptorOffset + 32 * N.of_nat i + 18
                  <= byteLength buffer) ->
    hl <= descriptorOffset + 32 * N.of_nat n ->
    (n = 0%nat \/ descriptorOffset + 32 * N.of_nat (n - 1) < hl) ->
    exists rest,
      descriptorLoop buffer hl descriptorOffset acc
      = Ok (acc ++ rest, descriptorOffset + 32 * N.of_nat n)
      /\ List.length rest = n.
Proof.
  induction n as [|n IH]; intros off acc Hslots Hend Hlast;
    rewrite descriptorLoop_step.
  - assert (Hge : (off <? hl) = false) by (apply N.ltb_ge; lia).
    rewrite Hge. exists []. rewrite app_nil_r.
    split; [do 2 f_equal; lia | reflexivity].
  - assert (Hlt : (off <? hl) = true).
    { apply N.ltb_lt. destruct Hlast as [Hz | Hlast]; [discriminate | lia]. }
    rewrite Hlt.
    destruct (Hslots 0%nat) as [Hmark Hroom]; [lia |].
    replace (off + 32 * N.of_nat 0) with off in * by lia.
    destruct (getUint8_inside buffer off) as [marker Hmarker]; [lia |].
    rewrite Hmarker.
    assert (Hm : (marker =? 13) = false)
      by (apply N.eqb_neq; intros ->; exact (Hmark Hmarker)).
    rewrite Hm.
    destruct (readDescriptor_inside buffer off
                (N.of_nat (List.length acc) + 1) Hroom) as [field Hfield].
    rewrite Hfield.
    destruct (IH (off + 32) (acc ++ [field])) as [rest [Hrest Hlen]].
    + intros i Hi.
      replace (off + 32 + 32 * N.of_nat i) with (off + 32 * N.of_nat (S i))
        by lia.
      apply Hslots. lia.
    + lia.
    + destruct n as [|n]; [left; reflexivity | right].
      destruct Hlast as [Hz | Hlast]; [discriminate |].
      replace (S (S n) - 1)%nat with (S n) in Hlast by lia.
      replace (S n - 1)%nat with n by lia. lia.
    + exists (field :: rest). rewrite Hrest, <- app_assoc.
      cbn [app List.length].
      split; [do 2 f_equal; lia | congruence].
Qed.

(** X21: a table without terminator ends at the header length: when none
    of the [n] slots that start before the header length starts with the
    terminator and each has its first 18 bytes in the buffer, the table has
    exactly [n] fields, the last slot being read even where it extends past
    the header length. *)
Theorem table_ends_at_header_length :
  forall buffer hl n,
    (forall i, (i < n)%nat ->
               getUint8 buffer (32 + 32 * N.of_nat i) <> Ok 13
               /\ 32 + 32 * N.of_nat i + 18 <= byteLength buffer) ->
    hl <= 32 + 32 * N.of_nat n ->
    (n = 0%nat \/ 32 + 32 * N.of_nat (n - 1) < hl) ->
    exists fs,
      descriptorLoop buffer hl 32 [] = Ok (fs, 32 + 32 * N.of_nat n)
      /\ List.length fs = n
      /\ descriptorsRead buffer fs.
Proof.
  intros buffer hl n Hslots Hend Hlast.
  destruct (descriptorLoop_unterminated buffer hl n 32 [] Hslots Hend Hlast)
    as [fs [Hloop Hlen]].
  cbn [app] in Hloop. exists fs. split; [exact Hloop |].
  split; [exact Hlen |].
  apply (descriptorLoop_read buffer hl 32 [] fs _ Hloop);
    [reflexivity | apply descriptorsRead_nil].
Qed.

Lemma table_ends_at_header_length_witness :
  readPreamble unterminated = Ok (1, 64, 11)
  /\ 64 <= 32 + 32 * N.of_nat 1
  /\ exists fs,
       descriptorLoop unterminated 64 32 [] = Ok (fs, 32 + 32 * N.of_nat 1)
       /\ List.length fs = 1%nat
       /\ descriptorsRead unterminated fs.
Proof.
  split; [vm_compute; reflexivity |].
  split; [vm_compute; discriminate |].
  apply (table_ends_at_header_length unterminated 64 1).
  - intros i Hi. replace i with 0%nat by lia.
    split; vm_compute; discriminate.
  - vm_compute; discriminate.
  - right. vm_compute; reflexivity.
Defined.

(** ** No live record *)

(** X22: when the three validations pass and no declared record is live
    (the declared count is zero, or every declared record is deleted or
    does not fit), the conversion succeeds with the header row alone and a
    parsed count of zero. *)
Theorem header_only_csv :
  forall buffer rc hl rl fs off,
    readPreamble buffer = Ok (rc, hl, rl) ->
    descriptorLoop buffer hl 32 [] = Ok (fs, off) ->
    fs <> [] ->
    hl + rl <= byteLength buffer ->
    (forall j, j < rc -> live buffer hl rl j = false) ->
    convertDbfToCsv buffer
    = Ok {| csv := headerRow fs;
            recordCount := rc;
            parsedRecords := 0;
            headerLength := hl;
            recordLength := rl;
            fields := fs |}.
Proof.
  intros buffer rc hl rl fs off Hpre Hdesc Hfs Hroom Hdead.
  rewrite (convert_scan _ _ _ _ _ _ Hpre Hdesc Hfs Hroom).
  assert (Hnone :
    filter (live buffer hl rl) (indices 0 (N.to_nat rc)) = []).
  { destruct (filter (live buffer hl rl) (indices 0 (N.to_nat rc)))
      as [|j l] eqn:E; [reflexivity |].
    assert (Hj : In j (filter (live buffer hl rl) (indices 0 (N.to_nat rc))))
      by (rewrite E; left; reflexivity).
    apply filter_In in Hj. destruct Hj as [Hidx Hlive].
    apply indices_In in Hidx. rewrite Hdead in Hlive by lia. discriminate. }
  rewrite Hnone. reflexivity.
Qed.

Lemma header_only_csv_witness :
  readPreamble allDeleted = Ok (1, 65, 11)
  /\ descriptorLoop allDeleted 65 32 [] = Ok ([fieldNAME], 65)
  /\ 65 + 11 <= byteLength allDeleted
  /\ convertDbfToCsv allDeleted
     = Ok {| csv := headerRow [fieldNAME];
             recordCount := 1;
             parsedRecords := 0;
             headerLength := 65;
             recordLength := 11;
             fields := [fieldNAME] |}.
Proof.
  split; [vm_compute; reflexivity |].
  split; [vm_compute; reflexivity |].
  split; [vm_compute; discriminate |].
  apply (header_only_csv allDeleted 1 65 11 [fieldNAME] 65).
  - vm_compute; reflexivity.
  - vm_compute; reflexivity.
  - discriminate.
  - vm_compute; discriminate.
  - intros j Hj. replace j with 0 by lia. vm_compute; reflexivity.
Defined.

(** * The CSV text under RFC 4180 *)

Section StrictReader.

Variables (cell : jsstring) (row : list jsstring).

Lemma readFrom_comma st text :
  st <> InQuoted ->
  readFrom st cell row (COMMA :: text)
  = readFrom (AtCell false) [] (row ++ [cell]) text.
Proof.
  destruct st; intros H; try reflexivity. congruence.
Qed.

Lemma readFrom_crlf st text :
  st <> InQuoted ->
  readFrom st cell row (CR :: LF :: text)
  = option_map (cons (row ++ [cell])) (readFrom (AtCell true) [] [] text).
Proof.
  destruct st; intros H; try reflexivity. congruence.
Qed.

Lemma readFrom_end st :
  st <> InQuoted -> st <> AtCell true ->
  readFrom st cell row [] = Some [row ++ [cell]].
Proof.
  destruct st as [[|]| | |]; intros H1 H2; try reflexivity; congruence.
Qed.

Lemma readFrom_bare_char st c text :
  st <> InQuoted -> st <> AfterQuoted ->
  c <> DQUOTE -> c <> COMMA -> c <> CR -> c <> LF ->
  readFrom st cell row (c :: text) = readFrom InBare (cell ++ [c]) row text.
Proof.
  intros H1 H2 Hq Hc Hr Hl.
  apply N.eqb_neq in Hq, Hc, Hr, Hl.
  destruct st; try congruence; cbn [readFrom]; rewrite Hc, Hr, Hq, Hl;
    reflexivity.
Qed.

Lemma readFrom_open b text :
  readFrom (AtCell b) cell row (DQUOTE :: text)
  = readFrom InQuoted cell row text.
Proof. reflexivity. Qed.

Lemma readFrom_escaped_quote text :
  readFrom InQuoted cell row (DQUOTE :: DQUOTE :: text)
  = readFrom InQuoted (cell ++ [DQUOTE]) row text.
Proof. reflexivity. Qed.

Lemma readFrom_close text :
  startsWith DQUOTE text = false ->
  readFrom InQuoted cell row (DQUOTE :: text)
  = readFrom AfterQuoted cell row text.
Proof.
  intros H. cbn [readFrom]. change (DQUOTE =? DQUOTE) with true. cbn iota.
  destruct text as [|d text']; [reflexivity |].
  cbn [startsWith] in H. rewrite H. reflexivity.
Qed.

Lemma readFrom_inside c text :
  c <> DQUOTE ->
  readFrom InQuoted cell row (c :: text)
  = readFrom InQuoted (cell ++ [c]) row text.
Proof.
  intros Hq. cbn [readFrom]. apply N.eqb_neq in Hq. rewrite Hq. reflexivity.
Qed.

End StrictReader.

Lemma read_bare value :
  forall st cell row rest,
    st <> InQuoted -> st <> AfterQuoted ->
    value <> [] ->
    (forall c, In c value ->
               c <> DQUOTE /\ c <> COMMA /\ c <> CR /\ c <> LF) ->
    readFrom st cell row (value ++ rest)
    = readFrom InBare (cell ++ value) row rest.
Proof.
  induction value as [|c value IH]; intros st cell row rest H1 H2 Hne Hbare;
    [congruence |].
  destruct (Hbare c) as [Hq [Hc [Hr Hl]]]; [left; reflexivity |].
  cbn [app]. rewrite readFrom_bare_char by assumption.
  destruct value as [|d value].
  - reflexivity.
  - rewrite IH; try discriminate.
    + rewrite <- app_assoc. reflexivity.
    + intros e He. apply Hbare. right. exact He.
Qed.

Lemma read_quoted value :
  forall cell row rest,
    startsWith DQUOTE rest = false ->
    readFrom InQuoted cell row (doubled value ++ DQUOTE :: rest)
    = readFrom AfterQuoted (cell ++ value) row rest.
Proof.
  induction value as [|c value IH]; intros cell row rest Hrest.
  - cbn [doubled flat_map app]. rewrite app_nil_r.
    apply readFrom_close, Hrest.
  - unfold doubled. cbn [flat_map]. fold (doubled value).
    destruct (c =? DQUOTE) eqn:E.
    + apply N.eqb_eq in E. subst c. cbn [app].
      rewrite readFrom_escaped_quote, IH by exact Hrest.
      rewrite <- app_assoc. reflexivity.
    + apply N.eqb_neq in E. cbn [app].
      rewrite readFrom_inside, IH by assumption.
      rewrite <- app_assoc. reflexivity.
Qed.

(** Reading a cell that [escapeCsv] wrote: the value is read, and the
    reader is still at the start of a line only if nothing was written. *)
Lemma read_cell value b row rest :
  startsWith DQUOTE rest = false ->
  exists st,
    st <> InQuoted
    /\ (st = AtCell true -> b = true /\ escapeCsv value = [])
    /\ readFrom (AtCell b) [] row (escapeCsv value ++ rest)
       = readFrom st value row rest.
Proof.
  intros Hrest. destruct (special_dec value) as [Hs | Hs].
  - exists AfterQuoted. split; [discriminate |]. split; [discriminate |].
    rewrite (escapeCsv_special _ Hs).
    cbn [app]. rewrite readFrom_open, <- app_assoc. cbn [app].
    apply (read_quoted value [] row rest Hrest).
  - rewrite (escapeCsv_plain _ Hs). destruct value as [|c value].
    + exists (AtCell b). split; [discriminate |].
      split; [intros E; inv E; auto | reflexivity].
    + exists InBare. split; [discriminate |]. split; [discriminate |].
      apply (read_bare (c :: value) (AtCell b) [] row rest);
        try discriminate.
      intros d Hd.
      repeat split; intros E; apply Hs; exists d; unfold special; auto.
Qed.

(** Reading a row of cells, followed by a text [rest] at which the reader,
    unless it is at the start of a line, closes the row and goes on to
    give the rows [more]. *)
Lemma read_row rest more :
  startsWith DQUOTE rest = false ->
  (forall st cell row,
     st <> InQuoted -> st <> AtCell true ->
     readFrom st cell row rest = option_map (cons (row ++ [cell])) more) ->
  forall values v b row,
    b = false \/ rowText (v :: values) <> [] ->
    readFrom (AtCell b) [] row (rowText (v :: values) ++ rest)
    = option_map (cons (row ++ v :: values)) more.
Proof.
  intros Hrest Hclose.
  induction values as [|w values IH]; intros v b row Hb.
  - unfold rowText in *. cbn [map join] in *.
    destruct (read_cell v b row rest Hrest) as [st [Hst [Hline Heq]]].
    rewrite Heq. apply Hclose; [exact Hst |].
    intros E. destruct (Hline E) as [Eb Ev].
    destruct Hb as [Hb | Hb]; congruence.
  - rewrite rowText_cons, <- app_assoc. cbn [app].
    destruct (read_cell v b row (COMMA :: rowText (w :: values) ++ rest))
      as [st [Hst [_ Heq]]]; [reflexivity |].
    rewrite Heq, readFrom_comma by exact Hst.
    rewrite IH by (left; reflexivity).
    rewrite <- app_assoc. reflexivity.
Qed.

Lemma escapeCsv_nil value : escapeCsv value = [] -> value = [].
Proof.
  destruct (special_dec value) as [Hs | Hs].
  - rewrite (escapeCsv_special _ Hs). discriminate.
  - rewrite (escapeCsv_plain _ Hs). auto.
Qed.

Lemma rowText_nil values :
  values <> [] -> rowText values = [] -> values = [[]].
Proof.
  destruct values as [|v [|w values]]; intros Hne H; [congruence | |].
  - unfold rowText in H. cbn [map join] in H.
    rewrite (escapeCsv_nil _ H). reflexivity.
  - rewrite rowText_cons in H. destruct (escapeCsv v); discriminate.
Qed.

(** Reading a table that was written row by row: the table, but for a last
    row written as the empty text, which the final CRLF before it hides. *)
Lemma read_table table :
  forall values,
    Forall (fun r => r <> []) (values :: table) ->
    read (join CRLF (map rowText (values :: table)))
    = Some (dropBlankLast (values :: table)).
Proof.
  unfold read.
  induction table as [|r table IH]; intros values Hne.
  - inv Hne. destruct values as [|v values]; [congruence |].
    cbn [map join dropBlankLast].
    destruct (rowText (v :: values)) as [|c text] eqn:E; [reflexivity |].
    rewrite <- E, <- (app_nil_r (rowText (v :: values))).
    rewrite (read_row [] (Some [])); try reflexivity.
    + intros st cell row Hst1 Hst2. cbn [option_map]. apply readFrom_end; auto.
    + right. rewrite E. discriminate.
  - pose proof Hne as Hall. inv Hne.
    destruct values as [|v values]; [congruence |].
    cbn [map]. rewrite join_CRLF_cons.
    change (rowText r :: map rowText table) with (map rowText (r :: table)).
    cbn [dropBlankLast].
    destruct (rowText (v :: values)) as [|c text] eqn:E.
    + rewrite (rowText_nil (v :: values)) by (congruence || exact E).
      cbn [app]. rewrite readFrom_crlf by discriminate.
      rewrite IH by assumption. reflexivity.
    + rewrite <- E.
      rewrite (read_row (CR :: LF :: join CRLF (map rowText (r :: table)))
                 (readFrom (AtCell true) [] []
                    (join CRLF (map rowText (r :: table))))).
      * rewrite IH by assumption. reflexivity.
      * reflexivity.
      * intros st cell row Hst1 _. apply readFrom_crlf. exact Hst1.
      * right. rewrite E. discriminate.
Qed.

Lemma dropBlankLast_count table :
  (List.length (dropBlankLast table) + (if blankLast table then 1 else 0)
   = List.length table)%nat.
Proof.
  induction table as [|r table IH]; [reflexivity |].
  cbn [dropBlankLast blankLast]. destruct table as [|r' table].
  - destruct (rowText r); reflexivity.
  - cbn [List.length] in *. lia.
Qed.

Lemma dropBlankLast_Forall (P : list jsstring -> Prop) table :
  Forall P table -> Forall P (dropBlankLast table).
Proof.
  induction table as [|r table IH]; intros H; [constructor |].
  inv H. cbn [dropBlankLast]. destruct table as [|r' table].
  - destruct (rowText r); constructor; auto.
  - constructor; auto.
Qed.

Lemma blankLast_last table :
  Forall (fun r => r <> []) table ->
  blankLast table = true ->
  exists before, table = before ++ [[[]]].
Proof.
  induction table as [|r table IH]; intros Hne H; [discriminate |].
  inv Hne. cbn [blankLast] in H. destruct table as [|r' table].
  - exists []. destruct (rowText r) eqn:E; [| discriminate].
    rewrite (rowText_nil r) by assumption. reflexivity.
  - destruct (IH H3 H) as [before Hbefore].
    exists (r :: before). rewrite Hbefore. reflexivity.
Qed.

Lemma dropBlankLast_header names rows :
  rowText names <> [] ->
  dropBlankLast (names :: rows) = names :: dropBlankLast rows.
Proof.
  intros H. cbn [dropBlankLast]. destruct rows as [|r rows]; [| reflexivity].
  destruct (rowText names); [congruence | reflexivity].
Qed.

Lemma headerText_not_nil buffer hl fs off :
  descriptorLoop buffer hl 32 [] = Ok (fs, off) ->
  fs <> [] ->
  rowText (map field_name fs) <> [].
Proof.
  intros Hloop Hfs Htext.
  assert (Hread : descriptorsRead buffer fs).
  { apply (descriptorLoop_read buffer hl 32 [] fs off Hloop);
      [reflexivity | apply descriptorsRead_nil]. }
  destruct fs as [|f fs']; [congruence |].
  assert (Hnames : map field_name (f :: fs') = [[]]).
  { apply rowText_nil; [discriminate | exact Htext]. }
  cbn [map] in Hnames. inv Hnames.
  destruct (field_of_descriptor _ _ _ _ (Hread 0%nat f eq_refl)) as [Hname _].
  congruence.
Qed.

(** C8 (amended): on success the CSV text, read under the rules of RFC
    4180 with a final CRLF taken as the ending line break of the last
    record, is one header row, made of the field names and so of as many
    cells as there are fields, followed by data rows of one cell per field;
    these are as many as records were parsed, but for one row fewer when the
    last parsed record is written as the empty text, which happens only in
    a table of one field whose last parsed value is empty. *)
Theorem csv_rows_under_rfc4180 :
  forall buffer r,
    convertDbfToCsv buffer = Ok r ->
    exists dataRows,
      Rfc4180.read (csv r) = Some (map field_name (fields r) :: dataRows)
      /\ List.length (map field_name (fields r)) = List.length (fields r)
      /\ Forall (fun row => List.length row = List.length (fields r)) dataRows
      /\ N.of_nat (List.length dataRows)
         + (if blankLast
                 (valueRows buffer (fields r) (recordCount r) (headerLength r)
                    (recordLength r))
            then 1 else 0)
         = parsedRecords r
      /\ (blankLast
            (valueRows buffer (fields r) (recordCount r) (headerLength r)
               (recordLength r)) = true ->
          List.length (fields r) = 1%nat
          /\ exists before,
               valueRows buffer (fields r) (recordCount r) (headerLength r)
                 (recordLength r)
               = before ++ [[[]]]).
Proof.
  intros buffer r H.
  destruct (convert_Ok buffer r H) as [off [_ [Hdesc [Hfs _]]]].
  set (rows := valueRows buffer (fields r) (recordCount r) (headerLength r)
                 (recordLength r)).
  assert (Hlen : Forall (fun row => List.length row = List.length (fields r))
                   rows).
  { apply Forall_map, Forall_forall. intros j _. apply valuesOf_length. }
  assert (Hne : Forall (fun row : list jsstring => row <> []) rows).
  { apply (Forall_impl _ (P := fun row =>
                                 List.length row = List.length (fields r)));
      [| exact Hlen].
    intros row Hrow ->. destruct (fields r); [congruence | discriminate]. }
  assert (Hnames : map field_name (fields r) <> []).
  { destruct (fields r); [congruence | discriminate]. }
  exists (dropBlankLast rows).
  split; [| split; [| split; [| split]]].
  - rewrite (convert_Ok_table buffer r H).
    fold (liveIndices buffer (recordCount r) (headerLength r) (recordLength r)).
    fold rows.
    rewrite read_table by (constructor; assumption).
    rewrite dropBlankLast_header
      by exact (headerText_not_nil buffer _ _ off Hdesc Hfs).
    reflexivity.
  - apply length_map.
  - apply dropBlankLast_Forall, Hlen.
  - rewrite (parsed_is_live buffer r H).
    pose proof (dropBlankLast_count rows) as Hcount.
    unfold rows at 3 in Hcount. unfold valueRows in Hcount.
    rewrite length_map in Hcount. unfold liveIndices in Hcount.
    destruct (blankLast rows); lia.
  - intros Hblank.
    destruct (blankLast_last rows Hne Hblank) as [before Hbefore].
    split; [| exists before; exact Hbefore].
    rewrite Hbefore in Hlen. apply Forall_app in Hlen.
    destruct Hlen as [_ Hlast]. inv Hlast. cbn in H2. congruence.
Qed.

Lemma csv_rows_under_rfc4180_witness :
  convertDbfToCsv twoFields = Ok twoFieldsResult
  /\ exists dataRows,
       Rfc4180.read (csv twoFieldsResult)
       = Some (map field_name (fields twoFieldsResult) :: dataRows)
       /\ List.length (map field_name (fields twoFieldsResult))
          = List.length (fields twoFieldsResult)
       /\ Forall
            (fun row => List.length row = List.length (fields twoFieldsResult))
            dataRows
       /\ N.of_nat (List.length dataRows)
          + (if blankLast
                  (valueRows twoFields (fields twoFieldsResult)
                     (recordCount twoFieldsResult)
                     (headerLength twoFieldsResult)
                     (recordLength twoFieldsResult))
             then 1 else 0)
          = parsedRecords twoFieldsResult
       /\ (blankLast
             (valueRows twoFields (fields twoFieldsResult)
                (recordCount twoFieldsResult) (headerLength twoFieldsResult)
                (recordLength twoFieldsResult)) = true ->
           List.length (fields twoFieldsResult) = 1%nat
           /\ exists before,
                valueRows twoFields (fields twoFieldsResult)
                  (recordCount twoFieldsResult) (headerLength twoFieldsResult)
                  (recordLength twoFieldsResult)
                = before ++ [[[]]]).
Proof.
  split; [vm_compute; reflexivity |].
  apply (csv_rows_under_rfc4180 twoFields twoFieldsResult).
  vm_compute; reflexivity.
Defined.

(** C8 as stated fails on [blankRecord]: its one record is parsed, its one
    value is empty, the CSV text is NAME followed by CRLF, and under RFC
    4180 that text is the header row alone: no data row for one parsed
    record. *)
Lemma blank_last_record_read_as_no_row :
  convertDbfToCsv blankRecord
  = Ok {| csv := lit "NAME" ++ [CR; LF];
          recordCount := 1;
          parsedRecords := 1;
          headerLength := 65;
          recordLength := 11;
          fields := [fieldNAME] |}
  /\ Rfc4180.read (lit "NAME" ++ [CR; LF]) = Some [[lit "NAME"]]
  /\ ~ (exists header dataRows,
          Rfc4180.read (lit "NAME" ++ [CR; LF]) = Some (header :: dataRows)
          /\ N.of_nat (List.length dataRows) = 1).
Proof.
  split; [vm_compute; reflexivity |].
  split; [vm_compute; reflexivity |].
  intros [header [dataRows [Hread Hcount]]].
  vm_compute in Hread. inv Hread. discriminate.
Qed.
